(** * Sign-language desktop application: segmentation FSM and translation cascade

    A shallow embedding of

    - [desktop_app/config.py]          (class [Config], the FSM parameters),
    - [desktop_app/deaf_mode.py]       ([DeafModeWindow.process_fsm],
                                        [classify_sequence], [add_detected_gloss]),
    - [desktop_app/gemini_service.py]  ([try_models], [glosses_to_natural_text],
                                        [natural_text_to_glosses]),

    followed by the properties of the gesture segmenter and of the backend
    cascade.

    Python values are modelled as follows.  A [str] is the list of its code
    points ([N]); an [int] that only counts frames is a [nat]; the confidence
    is a binary64 [float]; [None] is [option]'s [None]; an instance whose
    attributes are assigned by its methods is a record that every method takes
    and returns; [print] appends one structured line to a log. *)

From Stdlib Require Import List Bool Arith NArith ZArith Lia.
From Stdlib Require String Ascii.
Import String.StringSyntax.
Delimit Scope string_scope with string.
From Stdlib Require Import Floats.PrimFloat.
From Stdlib Require Floats.SpecFloat Floats.FloatOps Floats.FloatAxioms.
Import ListNotations.

(* ===================================================================== *)
(** ** Python strings *)
(* ===================================================================== *)

Module PyStr.

Definition char := N.
Definition str := list char.

(** Source literals are written as Rocq string literals, whose bytes are the
    UTF-8 encoding of the text; [lit] decodes them to code points (sequences
    of one to four bytes). *)
Fixpoint utf8_decode (need : nat) (acc : N) (bs : list N) : str :=
  match bs with
  | [] => []
  | b :: bs' =>
      match need with
      | O =>
          if (b <? 128)%N then b :: utf8_decode 0 0%N bs'
          else if (b <? 224)%N then utf8_decode 1 (b - 192)%N bs'
          else if (b <? 240)%N then utf8_decode 2 (b - 224)%N bs'
          else utf8_decode 3 (b - 240)%N bs'
      | S O => (acc * 64 + (b - 128))%N :: utf8_decode 0 0%N bs'
      | S k => utf8_decode k (acc * 64 + (b - 128))%N bs'
      end
  end.

Definition lit (s : String.string) : str :=
  utf8_decode 0 0%N (map Ascii.N_of_ascii (String.list_ascii_of_string s)).
Arguments lit s%_string.

(** [a == b] on strings. *)
Fixpoint eqb (a b : str) : bool :=
  match a, b with
  | [], [] => true
  | x :: a', y :: b' => (x =? y)%N && eqb a' b'
  | _, _ => false
  end.

(** [bool(s)]: a string is truthy when it is not empty. *)
Definition truthy (s : str) : bool :=
  match s with [] => false | _ :: _ => true end.

(** The code points for which [str.isspace] holds (the Unicode White_Space
    characters together with the separators U+001C..U+001F); [str.strip()]
    and [str.split()] without arguments use this set. *)
Definition whitespace : list N :=
  [9; 10; 11; 12; 13; 28; 29; 30; 31; 32; 133; 160; 5760;
   8192; 8193; 8194; 8195; 8196; 8197; 8198; 8199; 8200; 8201; 8202;
   8232; 8233; 8239; 8287; 12288]%N.

Definition isspace (c : char) : bool := existsb (N.eqb c) whitespace.

Fixpoint lstrip (s : str) : str :=
  match s with
  | [] => []
  | c :: s' => if isspace c then lstrip s' else s
  end.

Definition rstrip (s : str) : str := rev (lstrip (rev s)).

(** [s.strip()] *)
Definition strip (s : str) : str := rstrip (lstrip s).

(** [s.split()]: the maximal runs of non-space characters, in order.  [tok]
    is the run being read, latest character first. *)
Fixpoint split_from (tok : str) (s : str) : list str :=
  match s with
  | [] => match tok with [] => [] | _ :: _ => [rev tok] end
  | c :: s' =>
      if isspace c then
        match tok with
        | [] => split_from [] s'
        | _ :: _ => rev tok :: split_from [] s'
        end
      else split_from (c :: tok) s'
  end.

Definition split (s : str) : list str := split_from [] s.

(** [sep.join(parts)] *)
Fixpoint join (sep : str) (parts : list str) : str :=
  match parts with
  | [] => []
  | [p] => p
  | p :: rest => p ++ sep ++ join sep rest
  end.

(** [s.replace(old, new)] for one-character [old] and [new]. *)
Definition replace_char (old new : char) (s : str) : str :=
  map (fun c => if (c =? old)%N then new else c) s.

Fixpoint startswith (s prefix : str) : bool :=
  match prefix, s with
  | [], _ => true
  | p :: prefix', c :: s' => (c =? p)%N && startswith s' prefix'
  | _ :: _, [] => false
  end.

(** [needle in hay] *)
Fixpoint contains (needle hay : str) : bool :=
  startswith hay needle ||
  match hay with
  | [] => false
  | _ :: hay' => contains needle hay'
  end.

(** [re.sub(r'[...]', '', s)] for a class of single characters. *)
Definition remove_chars (class : str) (s : str) : str :=
  filter (fun c => negb (existsb (N.eqb c) class)) s.

(** [str.upper] and [str.lower] are driven by CPython's Unicode tables,
    which are not part of the repository: they are parameters of the
    development. *)
Class Casing := {
  upper : str -> str;
  lower : str -> str
}.

(** What the proofs use of the tables.  All three hold of CPython:
    upper-casing twice is upper-casing once, and no case mapping erases a
    character. *)
Record CasingLaws (U : Casing) : Prop := {
  upper_idempotent : forall s, upper (upper s) = upper s;
  upper_nonempty   : forall s, upper s = [] -> s = [];
  lower_nonempty   : forall s, lower s = [] -> s = []
}.

(** The tables on U+0000..U+00FF (ASCII and the Latin-1 supplement, which
    hold the Spanish alphabet), used to run the functions on concrete
    inputs.  Code points from U+0100 on are left as they are. *)
Definition latin1_toupper (c : char) : str :=
  if (97 <=? c)%N && (c <=? 122)%N then [c - 32]%N
  else if (c =? 181)%N then [924]%N
  else if (c =? 223)%N then [83; 83]%N
  else if (224 <=? c)%N && (c <=? 254)%N && negb (c =? 247)%N then [c - 32]%N
  else if (c =? 255)%N then [376]%N
  else [c].

Definition latin1_tolower (c : char) : str :=
  if (65 <=? c)%N && (c <=? 90)%N then [c + 32]%N
  else if (192 <=? c)%N && (c <=? 222)%N && negb (c =? 215)%N then [c + 32]%N
  else [c].

Definition latin1 : Casing := {|
  upper := flat_map latin1_toupper;
  lower := flat_map latin1_tolower
|}.

End PyStr.

Import PyStr.

(* ===================================================================== *)
(** ** config.py *)
(* ===================================================================== *)

Module Config.

(** FSM parameters *)
Definition START_STREAK : nat := 4.
Definition END_STREAK : nat := 6.
Definition MIN_SIGN_FRAMES : nat := 12.
Definition MAX_SIGN_FRAMES : nat := 96.
(** 0.4, as the binary64 value nearest to it *)
Definition MIN_CONFIDENCE : float := 0x1.999999999999ap-2%float.

(** Model parameters *)
Definition MAX_LEN : nat := 64.

End Config.

(* ===================================================================== *)
(** ** deaf_mode.py: the gesture segmenter *)
(* ===================================================================== *)

Module DeafMode.

Set Implicit Arguments.

Inductive fsm_state := IDLE | RECORDING.

(** The lines [classify_sequence] prints: gloss, confidence, the [frames=]
    count and whether the [[LOW]] tag is there (the wall-clock time stamp
    is left out). *)
Record LogLine := mkLogLine {
  log_gloss : str;
  log_conf : float;
  log_frames : nat;
  log_low : bool
}.

Section Window.

(** One frame's flattened landmark vector. *)
Variable Landmarks : Type.

(** The classifier as the window sees it: from the buffered sequence to
    [(self.classes[top_id], float(probs[top_id]))].  It stands for
    [np.stack], [normalize_spatial], [pad_or_truncate], the network, the
    softmax and the arg-max, all of another package. *)
Variable infer : list Landmarks -> str * float.

(** The attributes of [DeafModeWindow] the segmenter reads or writes.
    [stdout] is what has been printed; [classified] lists the buffers
    [classify_sequence] has been run on, oldest first. *)
Record DeafModeWindow := mkWindow {
  state : fsm_state;
  present_streak : nat;
  absent_streak : nat;
  seq_buffer : list Landmarks;
  detected_glosses : list str;
  stdout : list LogLine;
  classified : list (list Landmarks)
}.

Definition set_state (self : DeafModeWindow) v :=
  mkWindow v (present_streak self) (absent_streak self) (seq_buffer self)
    (detected_glosses self) (stdout self) (classified self).
Definition set_present_streak (self : DeafModeWindow) v :=
  mkWindow (state self) v (absent_streak self) (seq_buffer self)
    (detected_glosses self) (stdout self) (classified self).
Definition set_absent_streak (self : DeafModeWindow) v :=
  mkWindow (state self) (present_streak self) v (seq_buffer self)
    (detected_glosses self) (stdout self) (classified self).
Definition set_seq_buffer (self : DeafModeWindow) v :=
  mkWindow (state self) (present_streak self) (absent_streak self) v
    (detected_glosses self) (stdout self) (classified self).
Definition set_detected_glosses (self : DeafModeWindow) v :=
  mkWindow (state self) (present_streak self) (absent_streak self)
    (seq_buffer self) v (stdout self) (classified self).
Definition print (self : DeafModeWindow) (line : LogLine) :=
  mkWindow (state self) (present_streak self) (absent_streak self)
    (seq_buffer self) (detected_glosses self) (stdout self ++ [line])
    (classified self).
Definition record_classified (self : DeafModeWindow) :=
  mkWindow (state self) (present_streak self) (absent_streak self)
    (seq_buffer self) (detected_glosses self) (stdout self)
    (classified self ++ [seq_buffer self]).

(** [load_model] (the FSM block) and the [# Reset] block of [start_camera]. *)
Definition reset (self : DeafModeWindow) : DeafModeWindow :=
  let self := set_state self IDLE in
  let self := set_present_streak self 0 in
  let self := set_absent_streak self 0 in
  let self := set_seq_buffer self [] in
  set_detected_glosses self [].

(** A window on which nothing has happened yet. *)
Definition fresh : DeafModeWindow := mkWindow IDLE 0 0 [] [] [] [].

(** [add_detected_gloss] (the redraw it schedules is presentation). *)
Definition add_detected_gloss (self : DeafModeWindow) (gloss : str) :=
  set_detected_glosses self (detected_glosses self ++ [gloss]).

(** [classify_sequence] *)
Definition classify_sequence (self : DeafModeWindow) : DeafModeWindow :=
  let self := record_classified self in
  let '(gloss, conf) := infer (seq_buffer self) in
  let seg_info := length (seq_buffer self) in
  (* Always add gloss, but show quality in print *)
  let self :=
    if PrimFloat.leb Config.MIN_CONFIDENCE conf
    then print self (mkLogLine gloss conf seg_info false)
    else print self (mkLogLine gloss conf seg_info true) in
  add_detected_gloss self gloss.

(** [process_fsm] *)
Definition process_fsm (self : DeafModeWindow) (landmarks : Landmarks)
    (present : bool) : DeafModeWindow :=
  match state self with
  | IDLE =>
      let self := set_absent_streak self 0 in
      let self :=
        set_present_streak self
          (if present then present_streak self + 1 else 0) in
      if Config.START_STREAK <=? present_streak self then
        let self := set_state self RECORDING in
        let self := set_seq_buffer self [] in
        set_present_streak self 0
      else self
  | RECORDING =>
      let self := set_seq_buffer self (seq_buffer self ++ [landmarks]) in
      let self :=
        set_present_streak self
          (if present then present_streak self + 1 else 0) in
      let self :=
        set_absent_streak self
          (if negb present then absent_streak self + 1 else 0) in
      if (Config.END_STREAK <=? absent_streak self)
         || (Config.MAX_SIGN_FRAMES <=? length (seq_buffer self)) then
        let self :=
          if Config.MIN_SIGN_FRAMES <=? length (seq_buffer self)
          then classify_sequence self
          else self in
        let self := set_state self IDLE in
        let self := set_present_streak self 0 in
        let self := set_absent_streak self 0 in
        set_seq_buffer self []
      else self
  end.

(** The body of [camera_loop], frame after frame: each frame is the pair
    [(flat, present)] that the loop passes to [process_fsm]. *)
Definition feed (self : DeafModeWindow) (frames : list (Landmarks * bool))
    : DeafModeWindow :=
  fold_left (fun w f => process_fsm w (fst f) (snd f)) frames self.

End Window.

Unset Implicit Arguments.

End DeafMode.


(* ===================================================================== *)
(** ** gemini_service.py: the backend cascade *)
(* ===================================================================== *)

Module Gemini.

Set Implicit Arguments.

(** Model cascade - try in this order *)
Definition MODELS : list str :=
  [ lit "gemini-1.5-flash";
    lit "gemini-2.5-flash-lite";
    lit "gemini-2.5-flash" ].

(** How [client.models.generate_content(...)] followed by
    [response.text.strip()] ends: with the response text, or with an
    exception [e], of which the code only reads [str(e)]. *)
Inductive Response :=
| Returned (text : str)
| Raised (error_str : str).

(** One call of a backend. *)
Record Attempt := mkAttempt {
  att_model : str;
  att_contents : str;
  att_max_output_tokens : nat;
  att_outcome : Response
}.

(** The [print] sites of the module, with the values they interpolate. *)
Inductive LogLine :=
| Worked (model : str)
| Exhausted (model : str)
| Failed (model : str) (error_head : str)
| AllExhausted
| Translating (glosses_str : str)
| TextResult (result : str)
| TextFallback (result : str)
| Converting (text : str)
| GlossResult (glosses : list str)
| GlossFallback (result : list str).

(** What a run does, in the order it does it. *)
Inductive Event :=
| Called (a : Attempt)
| Printed (line : LogLine).

Definition attempts (tr : list Event) : list Attempt :=
  flat_map (fun e => match e with Called a => [a] | Printed _ => [] end) tr.

Definition printed (tr : list Event) : list LogLine :=
  flat_map (fun e => match e with Called _ => [] | Printed l => [l] end) tr.

Definition dq : str := [34%N].

(** [result[0].upper() + result[1:]] under [if result:] *)
Definition capitalize_first {U : Casing} (result : str) : str :=
  match result with
  | [] => result
  | c :: tail => upper [c] ++ tail
  end.

(** The last lines of [glosses_to_natural_text] ([# Fallback: basic local
    processing]), without the [print]. *)
Definition local_text {U : Casing} (glosses : list str) : str :=
  let result := lower (replace_char 95%N 32%N (join (lit " ") glosses)) in
  capitalize_first result.

(** Common Spanish stop words *)
Definition stop_words : list str :=
  map lit
  [ "el"; "la"; "los"; "las"; "un"; "una"; "unos"; "unas";
    "de"; "del"; "al"; "a"; "en"; "por"; "para"; "con"; "sin";
    "y"; "o"; "pero"; "si"; "no"; "que"; "como"; "cuando";
    "me"; "te"; "se"; "le"; "lo"; "mi"; "tu"; "su"; "es"; "son" ]%string.

(** [w in stop_words] *)
Definition in_stop_words (w : str) : bool := existsb (PyStr.eqb w) stop_words.

(** The last lines of [natural_text_to_glosses] ([# Fallback: simple local
    processing]), without the [print]. *)
Definition local_glosses {U : Casing} (text : str) : list str :=
  let text_clean := remove_chars (lit "¿?¡!.,;:") (lower text) in
  let words :=
    map upper
      (filter (fun w => negb (in_stop_words w) && (1 <? length w))
         (split text_clean)) in
  match words with
  | [] => [upper text]
  | _ :: _ => words
  end.

Section Cascade.

Context {U : Casing}.

(** The remote service.  Its answers may depend on anything, so it is a
    function of a state of the world that each call advances. *)
Variable World : Type.
Variable generate_content :
  forall (model contents : str) (max_output_tokens : nat),
    World -> Response * World.

(** Computations that call the service and print. *)
Definition M (A : Type) : Type := World -> A * World * list Event.

Definition ret {A} (x : A) : M A := fun w => (x, w, []).

Definition bind {A B} (c : M A) (k : A -> M B) : M B :=
  fun w =>
    let '(x, w1, tr1) := c w in
    let '(y, w2, tr2) := k x w1 in
    (y, w2, tr1 ++ tr2).

Definition call (model contents : str) (max_output_tokens : nat)
    : M Response :=
  fun w =>
    let '(r, w') := generate_content model contents max_output_tokens w in
    (r, w', [Called (mkAttempt model contents max_output_tokens r)]).

Definition print (line : LogLine) : M unit :=
  fun w => (tt, w, [Printed line]).

Notation "x <- c ;; k" := (bind c (fun x => k))
  (at level 61, c at next level, right associativity).
Notation "c ;;; k" := (bind c (fun _ => k))
  (at level 61, right associativity).

(** The test of the [except] branch: a quota or rate-limit error. *)
Definition is_quota_error (error_str : str) : bool :=
  contains (lit "429") error_str
  || contains (lit "quota") (lower error_str)
  || contains (lit "RESOURCE_EXHAUSTED") error_str.

(** The [for model in ...] loop of [try_models], from any point of the
    list on. *)
Fixpoint try_models_from (models : list str) (prompt : str)
    (max_tokens : nat) : M (option str) :=
  match models with
  | [] =>
      (* All models failed *)
      print AllExhausted ;;;
      ret None
  | model :: models' =>
      response <- call model prompt max_tokens ;;
      match response with
      | Returned text =>
          let result := strip text in
          print (Worked model) ;;;
          ret (Some result)
      | Raised error_str =>
          if is_quota_error error_str then
            print (Exhausted model) ;;;
            try_models_from models' prompt max_tokens
          else
            (* Other error - also try next model *)
            print (Failed model (firstn 100 error_str)) ;;;
            try_models_from models' prompt max_tokens
      end
  end.

(** [try_models] *)
Definition try_models (prompt : str) (max_tokens : nat) : M (option str) :=
  try_models_from MODELS prompt max_tokens.

Definition glosses_prompt (glosses_str : str) : str :=
  lit "Convierte estas glosas de Lengua de Señas Peruana (LSP) a español natural.

REGLAS LSP:
1. Letras individuales (A, B, C, etc.) = deletreo de nombres propios
2. Verbos están en infinitivo: QUERER, IR, TENER, SER, etc.
3. Sustantivos en singular: CASA, PERRO, LIBRO
4. Sin artículos: " ++ dq ++ lit "LA CASA" ++ dq ++ lit " se escribe solo "
  ++ dq ++ lit "CASA" ++ dq ++ lit "

Glosas: " ++ glosses_str ++ lit "

Responde SOLO la traducción en español natural, sin explicaciones:".

(** [glosses_to_natural_text] *)
Definition glosses_to_natural_text (glosses : list str) : M str :=
  match glosses with
  | [] => ret []
  | _ :: _ =>
      let glosses_str := join (lit " ") glosses in
      let prompt := glosses_prompt glosses_str in
      print (Translating glosses_str) ;;;
      (* Try models in cascade *)
      result <- try_models prompt 100 ;;
      match result with
      | Some ((_ :: _) as result) =>
          print (TextResult result) ;;;
          ret result
      | _ =>
          (* Fallback: basic local processing *)
          let result := local_text glosses in
          print (TextFallback result) ;;;
          ret result
      end
  end.

Definition text_prompt (text : str) : str :=
  lit "Convierte este texto en español a glosas de Lengua de Señas Peruana (LSP).

REGLAS:
1. Verbos en INFINITIVO y MAYÚSCULAS: " ++ dq ++ lit "quiero" ++ dq
  ++ lit " → QUERER, " ++ dq ++ lit "tengo" ++ dq ++ lit " → TENER
2. Sustantivos en SINGULAR: " ++ dq ++ lit "casas" ++ dq ++ lit " → CASA
3. SIN artículos (el, la, los, las, un, una)
4. SIN preposiciones innecesarias (de, del, a, en)
5. Nombres propios DELETREAR: " ++ dq ++ lit "Leo" ++ dq ++ lit " → L E O
6. Orden puede cambiar para claridad gestual

Texto: " ++ text ++ lit "

Responde SOLO las glosas separadas por espacios, en MAYÚSCULAS:".

(** [natural_text_to_glosses] *)
Definition natural_text_to_glosses (text : str) : M (list str) :=
  if negb (truthy text) || negb (truthy (strip text)) then ret []
  else
    let prompt := text_prompt text in
    print (Converting text) ;;;
    (* Try models in cascade *)
    result <- try_models prompt 50 ;;
    match result with
    | Some ((_ :: _) as result) =>
        let glosses :=
          map (fun g => upper (strip g))
            (filter (fun g => truthy (strip g)) (split result)) in
        print (GlossResult glosses) ;;;
        ret glosses
    | _ =>
        (* Fallback: simple local processing *)
        let result := local_glosses text in
        print (GlossFallback result) ;;;
        ret result
    end.

End Cascade.

Unset Implicit Arguments.

End Gemini.

(* ===================================================================== *)
(** ** gemini_service.py: the call and the reading of its text, apart *)
(* ===================================================================== *)

Module GeminiSdk.

Import Gemini.

Set Implicit Arguments.

(** What [client.models.generate_content(...)] does by itself: it returns
    a response, whose [text] is a string or [None] (a response without a
    text part), or it raises [e]. *)
Inductive SdkResult :=
| Responded (text : option str)
| Threw (error_str : str).

(** [str(e)] for the [AttributeError] of [None.strip()]. *)
Definition none_has_no_strip : str :=
  lit "'NoneType' object has no attribute 'strip'".

(** The two statements of the [try] block before the [print]: the call,
    then [response.text.strip()], which raises on [None].  Both are under
    the same [except Exception]. *)
Definition outcome (r : SdkResult) : Response :=
  match r with
  | Responded (Some text) => Returned text
  | Responded None => Raised none_has_no_strip
  | Threw error_str => Raised error_str
  end.

Section Sdk.

Variable World : Type.
Variable sdk :
  forall (model contents : str) (max_output_tokens : nat),
    World -> SdkResult * World.

(** The service as [try_models] sees it. *)
Definition call_and_read_text (model contents : str)
    (max_output_tokens : nat) (w : World) : Response * World :=
  let '(r, w') := sdk model contents max_output_tokens w in
  (outcome r, w').

End Sdk.

Unset Implicit Arguments.

End GeminiSdk.

(* ===================================================================== *)
(** ** Vocabulary of the properties *)
(* ===================================================================== *)

Module Terms.

Set Implicit Arguments.

Section Segmenter.

Import DeafMode.
Variable Landmarks : Type.

Abbreviation window := (DeafModeWindow Landmarks).

(** When a recording frame ends the gesture. *)
Definition gesture_ends (w : window) (p : bool) : bool :=
  (Config.END_STREAK <=? (if negb p then absent_streak w + 1 else 0))
  || (Config.MAX_SIGN_FRAMES <=? length (seq_buffer w) + 1).

(** The condition the segmenter keeps between frames: no buffer outside
    RECORDING, and room left in the buffer. *)
Definition well_formed (w : window) : Prop :=
  (state w = IDLE -> seq_buffer w = [])
  /\ length (seq_buffer w) < Config.MAX_SIGN_FRAMES.

(** The lengths a classified buffer may have. *)
Definition within_bounds (buf : list Landmarks) : Prop :=
  Config.MIN_SIGN_FRAMES <= length buf <= Config.MAX_SIGN_FRAMES.

End Segmenter.

Arguments within_bounds {Landmarks} buf.

(** Whether a presence sequence begins with [k] present frames. *)
Fixpoint run_at_head (k : nat) (presence : list bool) : bool :=
  match k with
  | O => true
  | S k' =>
      match presence with
      | true :: rest => run_at_head k' rest
      | _ => false
      end
  end.

(** Whether [k] consecutive present frames start somewhere in a presence
    sequence. *)
Fixpoint has_run (k : nat) (presence : list bool) : bool :=
  run_at_head k presence
  || match presence with
     | [] => false
     | _ :: rest => has_run k rest
     end.

Section Cascade.

Import Gemini.
Context {U : Casing}.

(** An attempt that ended with an exception. *)
Definition failed (a : Attempt) : Prop :=
  match att_outcome a with
  | Raised _ => True
  | Returned _ => False
  end.

(** The line [try_models] prints after an attempt. *)
Definition line_of (a : Attempt) : LogLine :=
  match att_outcome a with
  | Returned _ => Worked (att_model a)
  | Raised error_str =>
      if is_quota_error error_str then Exhausted (att_model a)
      else Failed (att_model a) (firstn 100 error_str)
  end.

(** What a run of the loop over [models] may look like: the attempts are
    made on a prefix of the models, in order, with the prompt and the token
    bound given; all but the last have raised; the loop stops at the first
    that returns, with its text stripped, and answers [None] only when
    every model of the list has raised. *)
Definition cascade_run (models : list str) (prompt : str) (n : nat)
    (res : option str) (tr : list Event) : Prop :=
  printed tr
    = map line_of (attempts tr)
      ++ match res with None => [AllExhausted] | Some _ => [] end
  /\ Forall (fun a => att_contents a = prompt
                      /\ att_max_output_tokens a = n) (attempts tr)
  /\ exists fails,
       Forall failed fails
       /\ match res with
          | Some r =>
              exists m text post,
                r = strip text
                /\ attempts tr
                   = fails ++ [mkAttempt m prompt n (Returned text)]
                /\ models = map att_model fails ++ m :: post
          | None =>
              attempts tr = fails /\ map att_model fails = models
          end.

End Cascade.

(** The characters [natural_text_to_glosses] removes. *)
Definition punctuation : str := lit "¿?¡!.,;:".

Unset Implicit Arguments.

End Terms.

(* ===================================================================== *)
(** ** Scenarios: classifiers, streams and remote services to run on *)
(* ===================================================================== *)

Module Scenarios.

Import Gemini.

(** A classifier that always answers HOLA, with a confidence below
    MIN_CONFIDENCE. *)
Definition always_hola (buf : list nat) : str * float :=
  (lit "HOLA", 0.25%float).

(** The frames numbered from [from] on, [n] of them, with one presence
    value. *)
Definition frames_from (from n : nat) (present : bool) : list (nat * bool) :=
  map (fun i => (i, present)) (seq from n).

(** 4 present frames, 20 present frames, 6 absent frames. *)
Definition gesture_stream : list (nat * bool) :=
  frames_from 0 4 true ++ frames_from 4 20 true ++ frames_from 24 6 false.

(** A service that is down: every call raises. *)
Definition unavailable (model contents : str) (max_output_tokens : nat)
    (w : unit) : Response * unit :=
  (Raised (lit "503 UNAVAILABLE"), w).

(** The first model is out of quota, the others answer [Hola]. *)
Definition first_exhausted (model contents : str) (max_output_tokens : nat)
    (w : unit) : Response * unit :=
  if PyStr.eqb model (lit "gemini-1.5-flash")
  then (Raised (lit "429 RESOURCE_EXHAUSTED"), w)
  else (Returned (lit "Hola"), w).

(** Every model answers glosses in lower case, with blanks around. *)
Definition lower_case_glosses (model contents : str)
    (max_output_tokens : nat) (w : unit) : Response * unit :=
  (Returned (lit "  yo  querer casa "), w).

(** The first model returns a response without text, the others a
    response with the text [Hola]. *)
Definition first_without_text (model contents : str)
    (max_output_tokens : nat) (w : unit) : GeminiSdk.SdkResult * unit :=
  if PyStr.eqb model (lit "gemini-1.5-flash")
  then (GeminiSdk.Responded None, w)
  else (GeminiSdk.Responded (Some (lit "Hola")), w).

(** The first model returns a response whose text is a blank, the others
    a response with the text [Hola]. *)
Definition first_blank_text (model contents : str)
    (max_output_tokens : nat) (w : unit) : GeminiSdk.SdkResult * unit :=
  if PyStr.eqb model (lit "gemini-1.5-flash")
  then (GeminiSdk.Responded (Some (lit " ")), w)
  else (GeminiSdk.Responded (Some (lit "Hola")), w).

End Scenarios.

(* ===================================================================== *)
(** ** deaf_mode.py: the gloss ledger and the translation of a session *)
(* ===================================================================== *)

Module DeafModeSession.

Import DeafMode.

Set Implicit Arguments.

Section Ledger.

Variable Landmarks : Type.

(** [delete_last_gloss]: the window afterwards, and the gloss named in the
    line it prints, if it prints ([[DELETE] Removed: ...]).  The redraw is
    presentation. *)
Definition delete_last_gloss (self : DeafModeWindow Landmarks)
    : DeafModeWindow Landmarks * option str :=
  match detected_glosses self with
  | [] => (self, None)
  | _ :: _ =>
      let deleted := last (detected_glosses self) [] in
      (set_detected_glosses self (removelast (detected_glosses self)),
       Some deleted)
  end.

(** [clear_glosses] (the text widgets it empties are presentation). *)
Definition clear_glosses (self : DeafModeWindow Landmarks)
    : DeafModeWindow Landmarks :=
  set_detected_glosses self [].

End Ledger.

(** How a call of a widget, of a Tk variable or of the speech engine ends:
    it returns, or raises [tk.TclError], or raises another [Exception];
    [e] is [str(e)]. *)
Inductive Outcome (A : Type) :=
| Done (x : A)
| TclError (e : str)
| OtherError (e : str).

Arguments Done {A} x.
Arguments TclError {A} e.
Arguments OtherError {A} e.

(** What the window and the speech engine answer to [translate_bg], call
    site by call site (each is reached at most once); the last two are the
    calls of the [except Exception] branch. *)
Record Ui := mkUi {
  winfo_exists : Outcome bool;
  after_display : Outcome unit;
  after_status : Outcome unit;
  enable_tts_get : Outcome bool;
  TTS_AVAILABLE : bool;
  tts_say : Outcome unit;
  tts_runAndWait : Outcome unit;
  handler_winfo_exists : Outcome bool;
  handler_after_display : Outcome unit
}.

(** What [translate_bg] has done: the calls that returned, and the line it
    printed. *)
Inductive UiAction :=
| DisplayTranslation (text : str)
| StatusCompleted
| Say (text : str)
| RunAndWait
| PrintError (e : str).

(** The inner [try: if self.window.winfo_exists(): ... except tk.TclError:
    pass]: what it has done, and the exception that leaves it, if any. *)
Definition show (ui : Ui) (text : str) : list UiAction * option str :=
  match winfo_exists ui with
  | Done true =>
      match after_display ui with
      | Done _ =>
          match after_status ui with
          | Done _ => ([DisplayTranslation text; StatusCompleted], None)
          | TclError _ => ([DisplayTranslation text], None)
          | OtherError e => ([DisplayTranslation text], Some e)
          end
      | TclError _ => ([], None)
      | OtherError e => ([], Some e)
      end
  | Done false => ([], None)
  | TclError _ => ([], None)
  | OtherError e => ([], Some e)
  end.

(** The statement under [# TTS]: [self.enable_tts.get()] is outside the
    inner [try], whose bare [except] swallows whatever the engine raises. *)
Definition speak (ui : Ui) (text : str) : list UiAction * option str :=
  match enable_tts_get ui with
  | Done enabled =>
      if enabled && TTS_AVAILABLE ui then
        match tts_say ui with
        | Done _ =>
            match tts_runAndWait ui with
            | Done _ => ([Say text; RunAndWait], None)
            | _ => ([Say text], None)
            end
        | _ => ([], None)
        end
      else ([], None)
  | TclError e => ([], Some e)
  | OtherError e => ([], Some e)
  end.

(** The branch [except Exception as e] *)
Definition on_exception (ui : Ui) (detected_glosses : list str) (e : str)
    : list UiAction :=
  let fallback := lit "[Error] Glosas: " ++ join (lit " ") detected_glosses in
  PrintError e
  :: match handler_winfo_exists ui with
     | Done true =>
         match handler_after_display ui with
         | Done _ => [DisplayTranslation fallback]
         | _ => []
         end
     | _ => []
     end.

Section Translate.

Import Gemini.
Context {U : Casing}.
Variable World : Type.
Variable generate_content : str -> str -> nat -> World -> Response * World.

(** The body of the thread [translate_glosses] starts, run on the ledger as
    it is then.  [glosses_to_natural_text] raises nothing of its own (it
    catches what the service raises, and the rest of it prints and works on
    strings), so the [except Exception] branch is entered from the calls of
    the window and from [self.enable_tts.get()]. *)
Definition translate_bg (detected_glosses : list str) (ui : Ui)
    : M World (list UiAction) :=
  bind (glosses_to_natural_text generate_content detected_glosses)
    (fun text =>
       let text :=
         if startswith text (lit "Error")
            || contains (lit "quota") (lower text)
         then lit "[No disponible] Glosas: "
              ++ join (lit " ") detected_glosses
         else text in
       let '(shown, raised) := show ui text in
       match raised with
       | Some e => ret (shown ++ on_exception ui detected_glosses e)
       | None =>
           let '(spoken, raised) := speak ui text in
           match raised with
           | Some e =>
               ret (shown ++ spoken ++ on_exception ui detected_glosses e)
           | None => ret (shown ++ spoken)
           end
       end).

(** [translate_glosses] *)
Definition translate_glosses (detected_glosses : list str) (ui : Ui)
    : M World (list UiAction) :=
  match detected_glosses with
  | [] => ret []
  | _ :: _ => translate_bg detected_glosses ui
  end.

End Translate.

Unset Implicit Arguments.

End DeafModeSession.

(** Windows to run [translate_glosses] on. *)
Module UiScenarios.

Import DeafModeSession.

(** The window exists, speech is on and nothing raises. *)
Definition calm : Ui :=
  mkUi (Done true) (Done tt) (Done tt) (Done true) true (Done tt) (Done tt)
    (Done true) (Done tt).

(** The window exists, and reading the speech option raises. *)
Definition broken_option : Ui :=
  mkUi (Done true) (Done tt) (Done tt)
    (OtherError (lit "invalid command name")) true (Done tt) (Done tt)
    (Done true) (Done tt).

End UiScenarios.

(* ===================================================================== *)
(** ** hearing_mode.py: from a text to the playback of its glosses *)
(* ===================================================================== *)

Module HearingMode.

Import Gemini.

Set Implicit Arguments.

(** The attributes of [HearingModeWindow] the translation reads or
    writes. *)
Record HearingModeWindow := mkHearing {
  current_glosses : list str;
  is_playing : bool
}.

(** The texts [current_gloss_label] is set to. *)
Inductive Label :=
| LabelTranslating
| LabelNoGlosses
| LabelPlaying (count : nat)
| LabelPlaybackDone.

(** What the methods ask of the user interface, in order. *)
Inductive UiAction :=
| WarnEmptyText
| SetLabel (label : Label)
| ShowBadges (glosses : list str)
| StartPlayback (glosses : list str).

(** [play_videos]: the thread it starts plays [self.current_glosses]. *)
Definition play_videos (self : HearingModeWindow)
    : HearingModeWindow * list UiAction :=
  match current_glosses self with
  | [] => (self, [])
  | _ :: _ =>
      if is_playing self then (self, [])
      else (mkHearing (current_glosses self) true,
            [StartPlayback (current_glosses self)])
  end.

(** [display_glosses] *)
Definition display_glosses (self : HearingModeWindow) (glosses : list str)
    : HearingModeWindow * list UiAction :=
  let self := mkHearing glosses (is_playing self) in
  match glosses with
  | [] => (self, [SetLabel LabelNoGlosses])
  | _ :: _ =>
      let '(self, started) := play_videos self in
      (self,
       [ShowBadges glosses; SetLabel (LabelPlaying (length glosses))]
       ++ started)
  end.

(** [on_playback_finished] *)
Definition on_playback_finished (self : HearingModeWindow)
    : HearingModeWindow * list UiAction :=
  (mkHearing (current_glosses self) false, [SetLabel LabelPlaybackDone]).

Section Translate.

Context {U : Casing}.
Variable World : Type.
Variable generate_content : str -> str -> nat -> World -> Response * World.

(** [translate_text], with the thread it starts run to its end: [input] is
    what the text box holds, [self] the window as the answer finds it. *)
Definition translate_text (self : HearingModeWindow) (input : str)
    : M World (HearingModeWindow * list UiAction) :=
  let text := strip input in
  if negb (truthy text) then ret (self, [WarnEmptyText])
  else
    bind (natural_text_to_glosses generate_content text)
      (fun glosses =>
         let '(self, shown) := display_glosses self glosses in
         ret (self, SetLabel LabelTranslating :: shown)).

End Translate.

Unset Implicit Arguments.

End HearingMode.

(* ===================================================================== *)
(** ** video_player.py: from a gloss to its video *)
(* ===================================================================== *)

Module VideoPlayer.

Set Implicit Arguments.

(** The index is the JSON object of the index file: from gloss names to
    objects whose values, as far as they are read, are strings.  A dict is
    the list of its items, looked up by key. *)
Definition VideoData := list (str * str).
Definition GlossIndex := list (str * VideoData).

(** [d.get(key)] *)
Fixpoint dict_get {V : Type} (key : str) (d : list (str * V)) : option V :=
  match d with
  | [] => None
  | (k, v) :: d' => if PyStr.eqb key k then Some v else dict_get key d'
  end.

(** [del d[key]]: the dict without the key. *)
Definition dict_remove {V : Type} (key : str) (d : list (str * V))
    : list (str * V) :=
  filter (fun item => negb (PyStr.eqb (fst item) key)) d.

Record VideoPlayer := mkPlayer {
  gloss_index : GlossIndex
}.

Section Player.

Context {U : Casing}.

(** Paths: [Config.PROJECT_ROOT], the [/] of [pathlib], and the files
    there are, which is a matter of the world at the time of asking. *)
Variable Path : Type.
Variable PROJECT_ROOT : Path.
Variable joinpath : Path -> str -> Path.
Variable World : Type.
Variable path_exists : Path -> World -> bool.

(** [play_video], for [play_sequence]: whether the video was played to its
    end ([False] when it cannot be opened or the user presses q). *)
Variable play_video : Path -> str -> World -> bool * World.

(** [cv2.waitKey(delay)]: the code of the key pressed, or -1. *)
Variable waitKey : nat -> World -> Z * World.

(** What the player prints and does to the screen. *)
Inductive Event :=
| PrintFileNotFound (abs_path : Path)
| PrintPlaying (i total : nat) (gloss : str)
| PrintNoVideo (gloss : str)
| NamedWindow (window_name : str)
| ResizeWindow (window_name : str) (width height : nat)
| ShowPlaceholder (window_name : str) (gloss : str)
| PlayVideo (video_path : Path) (window_name : str) (played : bool)
| DestroyWindow (window_name : str).

Definition M (A : Type) : Type := World -> A * World * list Event.

Definition ret {A} (x : A) : M A := fun w => (x, w, []).

Definition bind {A B} (c : M A) (k : A -> M B) : M B :=
  fun w =>
    let '(x, w1, tr1) := c w in
    let '(y, w2, tr2) := k x w1 in
    (y, w2, tr1 ++ tr2).

Definition emit (e : Event) : M unit := fun w => (tt, w, [e]).

Notation "x <- c ;; k" := (bind c (fun x => k))
  (at level 61, c at next level, right associativity).
Notation "c ;;; k" := (bind c (fun _ => k))
  (at level 61, right associativity).

(** [get_video_path] *)
Definition get_video_path (self : VideoPlayer) (gloss : str)
    : M (option Path) :=
  let gloss_upper := upper gloss in
  match dict_get gloss_upper (gloss_index self) with
  | None => ret None
  | Some video_data =>
      let rel_path :=
        match dict_get (lit "path") video_data with
        | Some p => p
        | None => lit ""
        end in
      if negb (truthy rel_path) then ret None
      else
        let abs_path := joinpath PROJECT_ROOT rel_path in
        fun w =>
          if negb (path_exists abs_path w)
          then (emit (PrintFileNotFound abs_path) ;;; ret None) w
          else ret (Some abs_path) w
  end.

(** The [for i, gloss in enumerate(glosses)] loop of [play_sequence], from
    the gloss of index [i] on; [total] is [len(glosses)]. *)
Fixpoint play_from (self : VideoPlayer) (window_name : str) (total : nat)
    (i : nat) (glosses : list str) (played_count : nat) : M nat :=
  match glosses with
  | [] => ret played_count
  | gloss :: rest =>
      emit (PrintPlaying (i + 1) total gloss) ;;;
      video_path <- get_video_path self gloss ;;
      match video_path with
      | None =>
          emit (PrintNoVideo gloss) ;;;
          (* Show text placeholder for 2 seconds *)
          emit (ShowPlaceholder window_name gloss) ;;;
          key <- (fun w => let '(k, w') := waitKey 2000 w in (k, w', [])) ;;
          if (Z.land key 255 =? 113)%Z then ret played_count
          else play_from self window_name total (i + 1) rest played_count
      | Some video_path =>
          (* Play video *)
          played <- (fun w =>
                       let '(ok, w') := play_video video_path window_name w in
                       (ok, w', [PlayVideo video_path window_name ok])) ;;
          if negb played then ret played_count
          else play_from self window_name total (i + 1) rest
                 (played_count + 1)
      end
  end.

(** [play_sequence] *)
Definition play_sequence (self : VideoPlayer) (glosses : list str)
    (window_name : str) : M nat :=
  match glosses with
  | [] => ret 0
  | _ :: _ =>
      emit (NamedWindow window_name) ;;;
      emit (ResizeWindow window_name 640 480) ;;;
      played_count <-
        play_from self window_name (length glosses) 0 glosses 0 ;;
      emit (DestroyWindow window_name) ;;;
      ret played_count
  end.

End Player.

Arguments PrintFileNotFound {Path} abs_path.
Arguments PrintPlaying {Path} i total gloss.
Arguments PrintNoVideo {Path} gloss.
Arguments NamedWindow {Path} window_name.
Arguments ResizeWindow {Path} window_name width height.
Arguments ShowPlaceholder {Path} window_name gloss.
Arguments PlayVideo {Path} video_path window_name played.
Arguments DestroyWindow {Path} window_name.

Unset Implicit Arguments.

End VideoPlayer.

(* ===================================================================== *)
(** ** Vocabulary of the further properties *)
(* ===================================================================== *)

Module MoreTerms.

Import DeafMode.

Set Implicit Arguments.

Section Segmenter.

Variable Landmarks : Type.

Abbreviation window := (DeafModeWindow Landmarks).

(** The part of a window the state machine works on, with the buffers it
    has handed to the classifier. *)
Definition fsm_view (w : window) :=
  (state w, present_streak w, absent_streak w, seq_buffer w, classified w).

(** What holds of the counters between frames. *)
Definition streaks_ok (w : window) : Prop :=
  match state w with
  | IDLE =>
      present_streak w < Config.START_STREAK
      /\ absent_streak w = 0
      /\ seq_buffer w = []
  | RECORDING =>
      absent_streak w < Config.END_STREAK
      /\ length (seq_buffer w) < Config.MAX_SIGN_FRAMES
      /\ present_streak w + absent_streak w <= length (seq_buffer w)
      /\ (present_streak w = 0 \/ absent_streak w = 0)
  end.

(** The line [classify_sequence] prints for a buffer. *)
Definition line_for (infer : list Landmarks -> str * float)
    (buf : list Landmarks) : LogLine :=
  mkLogLine (fst (infer buf)) (snd (infer buf)) (length buf)
    (negb (PrimFloat.leb Config.MIN_CONFIDENCE (snd (infer buf)))).

(** The buffers one frame makes the window classify: the buffer with
    the frame appended, when the frame ends a gesture that is long
    enough. *)
Definition step_emits (w : window) (l : Landmarks) (p : bool)
    : list (list Landmarks) :=
  match state w with
  | IDLE => []
  | RECORDING =>
      if Terms.gesture_ends w p
         && (Config.MIN_SIGN_FRAMES <=? length (seq_buffer w ++ [l]))
      then [seq_buffer w ++ [l]]
      else []
  end.

(** The absences of a stream of frames. *)
Definition absences (frames : list (Landmarks * bool)) : list bool :=
  map (fun f => negb (snd f)) frames.

(** The absent streak after some frames of a recording that goes on,
    from the streak before them. *)
Definition absent_after (streak : nat) (frames : list (Landmarks * bool))
    : nat :=
  fold_left (fun a f => if negb (snd f) then a + 1 else 0) frames streak.

(** Two windows in the same session: they differ at most in the log and
    in the record of classified buffers. *)
Definition same_session (w1 w2 : window) : Prop :=
  state w1 = state w2
  /\ present_streak w1 = present_streak w2
  /\ absent_streak w1 = absent_streak w2
  /\ seq_buffer w1 = seq_buffer w2
  /\ detected_glosses w1 = detected_glosses w2.

End Segmenter.

(** A string that does not begin with white space. *)
Definition head_nonspace (s : str) : Prop :=
  match s with
  | [] => True
  | c :: _ => isspace c = false
  end.

Section Player.

Import VideoPlayer.
Variable Path : Type.

(** How the calls of [play_video] ended, in order. *)
Definition plays (tr : list (Event Path)) : list bool :=
  flat_map (fun e => match e with PlayVideo _ _ ok => [ok] | _ => [] end) tr.

(** The glosses announced by [[VIDEO] Playing i/total: gloss], in order. *)
Definition announced (tr : list (Event Path)) : list (nat * nat * str) :=
  flat_map (fun e => match e with
                     | PrintPlaying i total gloss => [(i, total, gloss)]
                     | _ => []
                     end) tr.

(** The events that create, resize or destroy a window. *)
Definition window_events (tr : list (Event Path)) : list (Event Path) :=
  filter (fun e => match e with
                   | NamedWindow _ | ResizeWindow _ _ _ | DestroyWindow _ =>
                       true
                   | _ => false
                   end) tr.

(** The announcements of the glosses [glosses], numbered from [i + 1]. *)
Fixpoint numbered (i total : nat) (glosses : list str)
    : list (nat * nat * str) :=
  match glosses with
  | [] => []
  | gloss :: rest => (i + 1, total, gloss) :: numbered (i + 1) total rest
  end.

End Player.

Unset Implicit Arguments.

End MoreTerms.

(* ===================================================================== *)
(** ** Scenarios for the video player *)
(* ===================================================================== *)

Module VideoScenarios.

Import VideoPlayer.

(** Paths as strings, joined with a slash. *)
Definition slash (root rel : str) : str := root ++ lit "/" ++ rel.

(** An index with one entry under an upper-case key and one under a key
    in mixed case. *)
Definition small_index : VideoPlayer :=
  mkPlayer
    [ (lit "HOLA", [(lit "path", lit "videos/hola.mp4")]);
      (lit "Gracias", [(lit "path", lit "videos/gracias.mp4")]) ].

(** A disk that holds the two videos. *)
Definition two_videos (p : str) (w : unit) : bool :=
  PyStr.eqb p (lit "/srv/videos/hola.mp4")
  || PyStr.eqb p (lit "/srv/videos/gracias.mp4").

(** Every video plays to its end, and no key is ever pressed. *)
Definition plays_well (video_path window_name : str) (w : unit)
    : bool * unit := (true, w).
Definition no_key (delay : nat) (w : unit) : Z * unit := ((-1)%Z, w).

End VideoScenarios.

(* ===================================================================== *)
(** ** Properties of the gesture segmenter *)
(* ===================================================================== *)

Module SegmenterFacts.
Import DeafMode Terms Scenarios.

Section Facts.

Variable Landmarks : Type.
Variable infer : list Landmarks -> str * float.

Abbreviation window := (DeafModeWindow Landmarks).
Abbreviation step := (process_fsm infer).

(** [classify_sequence] touches the ledger, the log and the record of
    classified buffers, and nothing of the state machine. *)
Lemma classify_sequence_fsm (w : window) :
  state (classify_sequence infer w) = state w
  /\ present_streak (classify_sequence infer w) = present_streak w
  /\ absent_streak (classify_sequence infer w) = absent_streak w
  /\ seq_buffer (classify_sequence infer w) = seq_buffer w.
Proof.
  unfold classify_sequence. simpl.
  destruct (infer (seq_buffer w)) as [gloss conf].
  destruct (PrimFloat.leb Config.MIN_CONFIDENCE conf); repeat split.
Qed.

Lemma classify_sequence_classified (w : window) :
  classified (classify_sequence infer w) = classified w ++ [seq_buffer w].
Proof.
  unfold classify_sequence. simpl.
  destruct (infer (seq_buffer w)) as [gloss conf].
  destruct (PrimFloat.leb Config.MIN_CONFIDENCE conf); reflexivity.
Qed.

Lemma classify_sequence_glosses (w : window) :
  detected_glosses (classify_sequence infer w)
  = detected_glosses w ++ [fst (infer (seq_buffer w))].
Proof.
  unfold classify_sequence. simpl.
  destruct (infer (seq_buffer w)) as [gloss conf].
  destruct (PrimFloat.leb Config.MIN_CONFIDENCE conf); reflexivity.
Qed.

(** What one frame does in the IDLE state. *)
Lemma step_idle (w : window) l p :
  state w = IDLE ->
  step w l p =
    let streak := if p then present_streak w + 1 else 0 in
    if Config.START_STREAK <=? streak
    then mkWindow RECORDING 0 0 [] (detected_glosses w) (stdout w)
           (classified w)
    else mkWindow IDLE streak 0 (seq_buffer w) (detected_glosses w)
           (stdout w) (classified w).
Proof.
  destruct w as [st ps ab buf glosses out cls]. cbn [state]. intros ->.
  reflexivity.
Qed.

(** What one frame does in the RECORDING state, on the state machine and
    on the record of classified buffers. *)
Lemma step_recording (w : window) l p :
  state w = RECORDING ->
  let w' := step w l p in
  let buf := seq_buffer w ++ [l] in
  if gesture_ends w p then
    state w' = IDLE /\ present_streak w' = 0 /\ absent_streak w' = 0
    /\ seq_buffer w' = []
    /\ classified w' =
         classified w
         ++ (if Config.MIN_SIGN_FRAMES <=? length buf then [buf] else [])
  else
    state w' = RECORDING
    /\ present_streak w' = (if p then present_streak w + 1 else 0)
    /\ absent_streak w' = (if negb p then absent_streak w + 1 else 0)
    /\ seq_buffer w' = buf
    /\ classified w' = classified w.
Proof.
  destruct w as [st ps ab buf glosses out cls]. cbn [state]. intros ->.
  pose proof
    (classify_sequence_classified
       (mkWindow RECORDING (if p then ps + 1 else 0)
          (if negb p then ab + 1 else 0) (buf ++ [l]) glosses out cls))
    as Hc.
  unfold process_fsm, gesture_ends.
  cbv beta iota zeta delta
    [state present_streak absent_streak seq_buffer detected_glosses stdout
     classified set_state set_present_streak set_absent_streak
     set_seq_buffer] in Hc |- *.
  rewrite length_app. cbn [length].
  destruct ((Config.END_STREAK <=? _) || _).
  - destruct (Config.MIN_SIGN_FRAMES <=? _).
    + destruct (classify_sequence infer _). rewrite Hc. repeat split.
    + rewrite app_nil_r. repeat split.
  - repeat split.
Qed.


Lemma MAX_SIGN_FRAMES_pos : 0 < Config.MAX_SIGN_FRAMES.
Proof. unfold Config.MAX_SIGN_FRAMES. lia. Qed.

Lemma reset_well_formed (w : window) : well_formed (reset w).
Proof. split; [reflexivity | apply MAX_SIGN_FRAMES_pos]. Qed.

Lemma step_idle_buffer (w : window) l p :
  (state w = IDLE -> seq_buffer w = []) ->
  state (step w l p) = IDLE -> seq_buffer (step w l p) = [].
Proof.
  intros Hw. destruct (state w) eqn:E.
  - rewrite (step_idle w l p E). cbv zeta.
    destruct (Config.START_STREAK <=? _); cbn; [discriminate | auto].
  - pose proof (step_recording w l p E) as H. cbv zeta in H.
    destruct (gesture_ends w p).
    + intros _. apply H.
    + destruct H as [H _]. rewrite H. discriminate.
Qed.

(** One frame keeps the segmenter well formed and classifies at most one
    buffer, whose length is within the bounds. *)
Lemma step_well_formed (w : window) l p :
  well_formed w ->
  well_formed (step w l p)
  /\ exists emitted,
       classified (step w l p) = classified w ++ emitted
       /\ Forall within_bounds emitted.
Proof.
  intros [Hidle Hlen]. destruct (state w) eqn:E.
  - rewrite (step_idle w l p E). cbv zeta.
    destruct (Config.START_STREAK <=? _); cbn.
    + split; [split; [discriminate | apply MAX_SIGN_FRAMES_pos] |].
      exists []. rewrite app_nil_r. auto.
    + split; [split; auto |].
      exists []. rewrite app_nil_r. auto.
  - pose proof (step_recording w l p E) as H. cbv zeta in H.
    unfold gesture_ends in H.
    destruct ((Config.END_STREAK <=? _) || _) eqn:Eend.
    + destruct H as (Hs & _ & _ & Hb & Hc). split.
      * split; [auto | rewrite Hb; apply MAX_SIGN_FRAMES_pos].
      * rewrite Hc.
        destruct (Nat.leb_spec Config.MIN_SIGN_FRAMES
                    (length (seq_buffer w ++ [l]))) as [Hmin | Hmin].
        -- eexists. split; [reflexivity |].
           constructor; [| constructor]. split; [exact Hmin |].
           rewrite length_app. cbn. lia.
        -- exists []. auto.
    + destruct H as (Hs & _ & _ & Hb & Hc). split.
      * split; [rewrite Hs; discriminate |].
        rewrite Hb, length_app. cbn.
        apply orb_false_iff in Eend. destruct Eend as [_ Emax].
        apply Nat.leb_gt in Emax. lia.
      * exists []. rewrite app_nil_r. auto.
Qed.

Lemma feed_cons (w : window) f frames :
  feed infer w (f :: frames) = feed infer (step w (fst f) (snd f)) frames.
Proof. reflexivity. Qed.

Lemma feed_snoc (w : window) frames f :
  feed infer w (frames ++ [f])
  = step (feed infer w frames) (fst f) (snd f).
Proof. unfold feed. rewrite fold_left_app. reflexivity. Qed.

Lemma feed_well_formed (frames : list (Landmarks * bool)) :
  forall w : window,
    well_formed w ->
    well_formed (feed infer w frames)
    /\ exists emitted,
         classified (feed infer w frames) = classified w ++ emitted
         /\ Forall within_bounds emitted.
Proof.
  induction frames as [| f frames IH]; intros w Hw.
  - split; [exact Hw |]. exists []. cbn. rewrite app_nil_r. auto.
  - rewrite feed_cons.
    destruct (step_well_formed w (fst f) (snd f) Hw) as (Hw1 & e1 & Hc1 & He1).
    destruct (IH _ Hw1) as (Hw2 & e2 & Hc2 & He2).
    split; [exact Hw2 |].
    exists (e1 ++ e2). rewrite Hc2, Hc1, app_assoc. split; [reflexivity |].
    apply Forall_app. auto.
Qed.

Lemma has_run_tail k b presence :
  has_run k (b :: presence) = false -> has_run k presence = false.
Proof.
  cbn [has_run]. intros H. apply orb_false_iff in H. apply H.
Qed.

Lemma has_run_drop_prefix k pre presence :
  has_run k (pre ++ presence) = false -> has_run k presence = false.
Proof.
  induction pre as [| b pre IH]; [auto |].
  intros H. apply IH. exact (has_run_tail _ _ _ H).
Qed.

Lemma run_at_head_repeat k rest :
  run_at_head k (repeat true k ++ rest) = true.
Proof. induction k as [| k IH]; [reflexivity | exact IH]. Qed.

Lemma has_run_repeat k rest : has_run k (repeat true k ++ rest) = true.
Proof.
  pose proof (run_at_head_repeat k rest) as H.
  destruct (repeat true k ++ rest); cbn [has_run]; rewrite H; reflexivity.
Qed.

(** While the segmenter is IDLE its streak counts the present frames just
    seen; as long as no run of START_STREAK shows up it stays IDLE and
    classifies nothing. *)
Lemma feed_idle_no_run (frames : list (Landmarks * bool)) :
  forall w : window,
    state w = IDLE ->
    has_run Config.START_STREAK
      (repeat true (present_streak w) ++ map snd frames) = false ->
    state (feed infer w frames) = IDLE
    /\ classified (feed infer w frames) = classified w
    /\ detected_glosses (feed infer w frames) = detected_glosses w
    /\ stdout (feed infer w frames) = stdout w.
Proof.
  induction frames as [| [l p] frames IH]; intros w E Hrun.
  - cbn. auto.
  - rewrite feed_cons. cbn [fst snd]. rewrite (step_idle w l p E). cbv zeta.
    assert (Hnext :
      has_run Config.START_STREAK
        (repeat true (if p then present_streak w + 1 else 0)
         ++ map snd frames) = false).
    { destruct p.
      - rewrite repeat_app, <- app_assoc. exact Hrun.
      - apply has_run_drop_prefix in Hrun. exact (has_run_tail _ _ _ Hrun). }
    destruct (Nat.leb_spec Config.START_STREAK
                (if p then present_streak w + 1 else 0)) as [Hge | Hlt].
    + exfalso.
      replace (if p then present_streak w + 1 else 0)
        with ((if p then present_streak w + 1 else 0) - Config.START_STREAK
              + Config.START_STREAK) in Hnext by lia.
      rewrite repeat_app, <- app_assoc in Hnext.
      apply has_run_drop_prefix in Hnext.
      rewrite has_run_repeat in Hnext. discriminate.
    + match goal with |- context [feed infer ?w1 frames] =>
        destruct (IH w1 eq_refl Hnext) as (H1 & H2 & H3 & H4) end.
      auto.
Qed.

Lemma run_at_head_firstn k n presence :
  run_at_head k (firstn n presence) = true -> run_at_head k presence = true.
Proof.
  revert n presence. induction k as [| k IH]; intros n presence; [auto |].
  destruct n as [| n], presence as [| b presence]; cbn; try discriminate.
  destruct b; [apply IH | discriminate].
Qed.

Lemma has_run_firstn k n presence :
  has_run k presence = false -> has_run k (firstn n presence) = false.
Proof.
  revert n. induction presence as [| b presence IH]; intros n H.
  - rewrite firstn_nil. exact H.
  - destruct n as [| n].
    + cbn [has_run] in H. apply orb_false_iff in H. destruct H as [H _].
      destruct k; [discriminate H | reflexivity].
    + cbn [has_run] in H. apply orb_false_iff in H. destruct H as [Hh Ht].
      cbn [firstn has_run]. rewrite (IH n Ht), orb_false_r.
      destruct (run_at_head k (b :: firstn n presence)) eqn:E; [| reflexivity].
      rewrite (run_at_head_firstn k (S n) (b :: presence) E) in Hh.
      discriminate.
Qed.

Lemma run_at_head_iff k presence :
  run_at_head k presence = true <->
  exists rest, presence = repeat true k ++ rest.
Proof.
  revert presence. induction k as [| k IH]; intros presence.
  - split; [intros _; exists presence; reflexivity | reflexivity].
  - destruct presence as [| [|] presence]; cbn [run_at_head repeat app].
    + split; [discriminate | intros [rest H]; discriminate H].
    + rewrite IH. split; intros [rest H]; exists rest.
      * rewrite H. reflexivity.
      * injection H as H. exact H.
    + split; [discriminate | intros [rest H]; discriminate H].
Qed.

(** [has_run k] says that the sequence has [k] present frames in a row. *)
Lemma has_run_iff k presence :
  has_run k presence = true <->
  exists before rest, presence = before ++ repeat true k ++ rest.
Proof.
  induction presence as [| b presence IH]; cbn [has_run];
    rewrite orb_true_iff, run_at_head_iff.
  - split.
    + intros [[rest H] | H]; [| discriminate H]. exists [], rest. exact H.
    + intros (before & rest & H). left.
      destruct before; [exists rest; exact H | discriminate H].
  - rewrite IH. split.
    + intros [[rest H] | (before & rest & H)].
      * exists [], rest. exact H.
      * exists (b :: before), rest. rewrite H. reflexivity.
    + intros (before & rest & H). destruct before as [| b' before].
      * left. exists rest. exact H.
      * right. injection H as _ H. exists before, rest. exact H.
Qed.

(** C6.  The gesture buffer is empty whenever the state machine is IDLE
    (a non-empty buffer implies RECORDING): the condition holds after the
    reset, every call of [process_fsm] preserves it, into RECORDING and back
    to IDLE alike, and so it holds after every frame of every stream. *)
Theorem idle_implies_empty_buffer :
  (forall w : window, state (reset w) = IDLE /\ seq_buffer (reset w) = [])
  /\ (forall (w : window) l p,
        (state w = IDLE -> seq_buffer w = []) ->
        (state (step w l p) = IDLE -> seq_buffer (step w l p) = [])
        /\ (seq_buffer (step w l p) <> [] -> state (step w l p) = RECORDING))
  /\ (forall (w : window) frames,
        state (feed infer (reset w) frames) = IDLE ->
        seq_buffer (feed infer (reset w) frames) = []).
Proof.
  split; [| split].
  - intros w. split; reflexivity.
  - intros w l p Hw.
    pose proof (step_idle_buffer w l p Hw) as H.
    split; [exact H |].
    destruct (state (step w l p)); [| reflexivity].
    intros Hne. exfalso. apply Hne, H. reflexivity.
  - intros w frames.
    apply (proj1 (feed_well_formed frames _ (reset_well_formed w))).
Qed.

(** C2.  Whatever frames are fed after a reset, every buffer handed to the
    classifier has MIN_SIGN_FRAMES <= length <= MAX_SIGN_FRAMES. *)
Theorem emitted_buffers_within_bounds (w : window)
    (frames : list (Landmarks * bool)) :
  exists emitted,
    classified (feed infer (reset w) frames) = classified w ++ emitted
    /\ Forall
         (fun buf => Config.MIN_SIGN_FRAMES <= length buf
                     /\ length buf <= Config.MAX_SIGN_FRAMES)
         emitted.
Proof.
  destruct (feed_well_formed frames _ (reset_well_formed w))
    as (_ & emitted & Hc & He).
  exists emitted. split; [exact Hc | exact He].
Qed.

(** C7.  If the presence sequence contains no START_STREAK consecutive
    present frames, then after each of its frames the state machine is IDLE
    and no buffer has been classified. *)
Theorem no_start_streak_no_emission (w : window)
    (frames : list (Landmarks * bool)) :
  has_run Config.START_STREAK (map snd frames) = false ->
  forall n,
    state (feed infer (reset w) (firstn n frames)) = IDLE
    /\ classified (feed infer (reset w) (firstn n frames)) = classified w
    /\ detected_glosses (feed infer (reset w) (firstn n frames)) = [].
Proof.
  intros Hrun n.
  assert (Hpre : has_run Config.START_STREAK
                   (repeat true (present_streak (reset w))
                    ++ map snd (firstn n frames)) = false).
  { cbn. rewrite <- firstn_map. apply has_run_firstn, Hrun. }
  destruct (feed_idle_no_run (firstn n frames) (reset w) eq_refl Hpre)
    as (Hs & Hc & Hg & _).
  auto.
Qed.

(** C1, as the code has it.  After a reset, 4 present frames, 20 present
    frames and 6 absent frames make the segmenter classify exactly one
    buffer; it holds the 26 frames that follow the 4 that start the
    recording (the 20 present ones and the 6 absent ones that end it), and
    the state machine is back in IDLE. *)
Theorem one_emission_of_26_frames (w : window)
    (frames : list (Landmarks * bool)) :
  map snd frames = repeat true 4 ++ repeat true 20 ++ repeat false 6 ->
  classified (feed infer (reset w) frames)
    = classified w ++ [map fst (skipn 4 frames)]
  /\ length (map fst (skipn 4 frames)) = 26
  /\ state (feed infer (reset w) frames) = IDLE.
Proof.
  intros H. cbn in H.
  do 30 (destruct frames as [| [? ?] frames]; [discriminate H |];
         cbn [map snd] in H; injection H as -> H).
  destruct frames; [clear H | discriminate H].
  cbn [skipn map fst length].
  match goal with |- context [feed infer (reset w) ?fs] =>
    rewrite <- (firstn_skipn 29 fs) end.
  cbn [firstn skipn]. rewrite feed_snoc. cbn [fst snd].
  match goal with |- context [feed infer (reset w) ?fs] =>
    remember (feed infer (reset w) fs) as w29 eqn:E29 end.
  vm_compute in E29.
  assert (Erec : state w29 = RECORDING) by (rewrite E29; reflexivity).
  match goal with |- context [step w29 ?last false] =>
    pose proof (step_recording w29 last false Erec) as Hlast end.
  rewrite E29 in Hlast.
  lazy beta iota zeta delta
    [gesture_ends absent_streak seq_buffer negb length app Nat.add Nat.leb
     orb Config.END_STREAK Config.MAX_SIGN_FRAMES Config.MIN_SIGN_FRAMES
     classified] in Hlast.
  rewrite <- E29 in Hlast.
  destruct Hlast as (Hs & _ & _ & _ & Hc).
  auto.
Qed.


(** Each frame appends to the ledger one gloss per buffer it classifies:
    the classifier's label for that buffer, whatever the confidence. *)
Lemma step_ledger (w : window) l p :
  exists emitted,
    classified (step w l p) = classified w ++ emitted
    /\ detected_glosses (step w l p)
       = detected_glosses w ++ map (fun buf => fst (infer buf)) emitted.
Proof.
  destruct (state w) eqn:E.
  - rewrite (step_idle w l p E). cbv zeta. exists [].
    destruct (Config.START_STREAK <=? _); cbn; rewrite !app_nil_r; auto.
  - destruct w as [st ps ab buf glosses out cls]. cbn [state] in E. subst st.
    pose proof
      (classify_sequence_classified
         (mkWindow RECORDING (if p then ps + 1 else 0)
            (if negb p then ab + 1 else 0) (buf ++ [l]) glosses out cls))
      as Hc.
    pose proof
      (classify_sequence_glosses
         (mkWindow RECORDING (if p then ps + 1 else 0)
            (if negb p then ab + 1 else 0) (buf ++ [l]) glosses out cls))
      as Hg.
    unfold process_fsm.
    cbv beta iota zeta delta
      [state present_streak absent_streak seq_buffer detected_glosses stdout
       classified set_state set_present_streak set_absent_streak
       set_seq_buffer] in Hc, Hg |- *.
    destruct ((Config.END_STREAK <=? _) || _).
    + destruct (Config.MIN_SIGN_FRAMES <=? _).
      * destruct (classify_sequence infer _). rewrite Hc, Hg.
        exists [buf ++ [l]]. auto.
      * exists []. rewrite !app_nil_r. auto.
    + exists []. rewrite !app_nil_r. auto.
Qed.

(** C9.  [classify_sequence] appends the recognized gloss to the ledger
    whatever the confidence is; the confidence decides the [[LOW]] tag of the
    printed line and nothing else: changing it changes neither the ledger
    nor the state machine, and every buffer that [process_fsm] classifies
    contributes its gloss. *)
Theorem gloss_appended_whatever_confidence (w : window) :
  let gloss := fst (infer (seq_buffer w)) in
  let conf := snd (infer (seq_buffer w)) in
  let w' := classify_sequence infer w in
  detected_glosses w' = detected_glosses w ++ [gloss]
  /\ stdout w'
     = stdout w
       ++ [mkLogLine gloss conf (length (seq_buffer w))
             (negb (PrimFloat.leb Config.MIN_CONFIDENCE conf))]
  /\ (forall conf',
        let w'' := classify_sequence (fun buf => (fst (infer buf), conf')) w in
        detected_glosses w'' = detected_glosses w'
        /\ state w'' = state w'
        /\ present_streak w'' = present_streak w'
        /\ absent_streak w'' = absent_streak w'
        /\ seq_buffer w'' = seq_buffer w'
        /\ classified w'' = classified w')
  /\ (forall l p,
        exists emitted,
          classified (step w l p) = classified w ++ emitted
          /\ detected_glosses (step w l p)
             = detected_glosses w ++ map (fun buf => fst (infer buf)) emitted).
Proof.
  cbv zeta. split; [| split; [| split]].
  - apply classify_sequence_glosses.
  - unfold classify_sequence. cbn.
    destruct (infer (seq_buffer w)) as [gloss conf]. cbn.
    destruct (PrimFloat.leb _ conf); reflexivity.
  - intros conf'. unfold classify_sequence. cbn.
    destruct (infer (seq_buffer w)) as [gloss conf]. cbn.
    destruct (PrimFloat.leb _ conf), (PrimFloat.leb _ conf'); repeat split.
  - apply step_ledger.
Qed.

End Facts.

(** *** Concrete runs *)

(** 200 present frames: the buffer is cut at MAX_SIGN_FRAMES, twice
    (4 frames start each recording). *)
Example two_hundred_present_frames :
  map (@length nat)
    (classified (feed always_hola (fresh nat) (frames_from 0 200 true)))
  = [96; 96].
Proof. vm_compute. reflexivity. Qed.

(** C1 as the spec states it fails: on the 4 + 20 + 6 stream the one buffer
    that is classified has 26 frames, not 24. *)
Lemma one_emission_of_24_frames_fails :
  ~ (exists buf,
       classified (feed always_hola (fresh nat) gesture_stream) = [buf]
       /\ length buf = 24).
Proof.
  intros (buf & Hc & Hlen).
  vm_compute in Hc. injection Hc as <-. discriminate Hlen.
Qed.

Lemma one_emission_of_26_frames_witness :
  classified (feed always_hola (reset (fresh nat)) gesture_stream)
    = classified (fresh nat) ++ [map fst (skipn 4 gesture_stream)]
  /\ length (map fst (skipn 4 gesture_stream)) = 26
  /\ state (feed always_hola (reset (fresh nat)) gesture_stream) = IDLE.
Proof.
  apply (one_emission_of_26_frames nat always_hola (fresh nat) gesture_stream).
  reflexivity.
Defined.

Lemma idle_implies_empty_buffer_witness :
  (state (fresh nat) = IDLE -> seq_buffer (fresh nat) = []) /\
  ((state (process_fsm always_hola (fresh nat) 0 true) = IDLE ->
    seq_buffer (process_fsm always_hola (fresh nat) 0 true) = [])
   /\ (seq_buffer (process_fsm always_hola (fresh nat) 0 true) <> [] ->
       state (process_fsm always_hola (fresh nat) 0 true) = RECORDING)).
Proof.
  split; [reflexivity |].
  apply (proj1 (proj2 (idle_implies_empty_buffer nat always_hola))
           (fresh nat) 0 true).
  reflexivity.
Defined.

Lemma no_start_streak_no_emission_witness :
  has_run Config.START_STREAK
    (map snd (frames_from 0 3 true ++ frames_from 3 2 false
              ++ frames_from 5 3 true)) = false
  /\ state (feed always_hola (reset (fresh nat))
              (firstn 8 (frames_from 0 3 true ++ frames_from 3 2 false
                         ++ frames_from 5 3 true))) = IDLE.
Proof.
  split; [reflexivity |].
  apply (no_start_streak_no_emission nat always_hola (fresh nat)
           (frames_from 0 3 true ++ frames_from 3 2 false
            ++ frames_from 5 3 true)).
  reflexivity.
Defined.

End SegmenterFacts.

(* ===================================================================== *)
(** ** Properties of the backend cascade *)
(* ===================================================================== *)

Module CascadeFacts.
Import Gemini Terms Scenarios.

Lemma attempts_app tr1 tr2 :
  attempts (tr1 ++ tr2) = attempts tr1 ++ attempts tr2.
Proof. apply flat_map_app. Qed.

Lemma printed_app tr1 tr2 :
  printed (tr1 ++ tr2) = printed tr1 ++ printed tr2.
Proof. apply flat_map_app. Qed.


Section Facts.

Context {U : Casing}.
Variable World : Type.
Variable generate_content : str -> str -> nat -> World -> Response * World.

Abbreviation from_models := (try_models_from generate_content).

(** The loop body when the backend returns: the loop ends there. *)
Lemma from_models_returned model models prompt n w text w1 :
  generate_content model prompt n w = (Returned text, w1) ->
  from_models (model :: models) prompt n w
  = (Some (strip text), w1,
     [Called (mkAttempt model prompt n (Returned text));
      Printed (Worked model)]).
Proof.
  intros E. cbn [try_models_from]. unfold bind, call, print, ret.
  rewrite E. reflexivity.
Qed.

(** The loop body when the backend raises: one line is printed, which
    depends on the kind of error, and the loop goes on with the next model
    either way. *)
Lemma from_models_raised model models prompt n w error_str w1 :
  generate_content model prompt n w = (Raised error_str, w1) ->
  from_models (model :: models) prompt n w
  = let '(res, w2, tr) := from_models models prompt n w1 in
    let a := mkAttempt model prompt n (Raised error_str) in
    (res, w2, Called a :: Printed (line_of a) :: tr).
Proof.
  intros E. cbn [try_models_from]. unfold bind at 1. unfold call.
  rewrite E. unfold line_of. cbn [att_outcome att_model].
  destruct (is_quota_error error_str); unfold bind, print;
    destruct (from_models models prompt n w1) as [[res w2] tr];
    reflexivity.
Qed.

Lemma try_models_from_spec (models : list str) (prompt : str) (n : nat) :
  forall w,
    cascade_run models prompt n
      (fst (fst (from_models models prompt n w)))
      (snd (from_models models prompt n w)).
Proof.
  induction models as [| model models IH]; intros w.
  - cbn. repeat split; auto. exists []. auto.
  - destruct (generate_content model prompt n w) as [response w1] eqn:E.
    destruct response as [text | error_str].
    + rewrite (from_models_returned model models prompt n w _ _ E).
      cbn. split; [reflexivity |]. split; [repeat constructor |].
      exists []. split; [constructor |].
      exists model, text, models. auto.
    + rewrite (from_models_raised model models prompt n w _ _ E).
      specialize (IH w1).
      destruct (from_models models prompt n w1) as [[res w2] tr].
      cbn [fst snd] in *.
      destruct IH as (Hp & Hf & fails & Hfails & Hres).
      unfold cascade_run.
      change (attempts (Called ?a :: Printed ?l :: tr))
        with (a :: attempts tr).
      change (printed (Called ?a :: Printed ?l :: tr))
        with (l :: printed tr).
      split; [| split].
      * rewrite Hp. reflexivity.
      * constructor; [split; reflexivity | exact Hf].
      * exists (mkAttempt model prompt n (Raised error_str) :: fails).
        split; [constructor; [exact I | exact Hfails] |].
        destruct res as [r |].
        -- destruct Hres as (m & text & post & Hr & Ha & Hm).
           exists m, text, post. cbn. rewrite Ha, Hm. auto.
        -- destruct Hres as [Ha Hm]. cbn. rewrite Ha, Hm. auto.
Qed.



(** The models a run has tried are a prefix of the list it was given. *)
Lemma cascade_run_prefix models prompt n res tr :
  cascade_run models prompt n res tr ->
  exists post, models = map att_model (attempts tr) ++ post.
Proof.
  intros (_ & _ & fails & _ & Hres). destruct res as [r |].
  - destruct Hres as (m & text & post & _ & Ha & Hm).
    exists post. rewrite Ha, map_app, <- app_assoc. exact Hm.
  - destruct Hres as [Ha Hm]. exists []. rewrite Ha, Hm, app_nil_r.
    reflexivity.
Qed.

(** An attempt that returned is the last one of its run, and the run
    answers its stripped text. *)
Lemma cascade_run_returned models prompt n res tr a text :
  cascade_run models prompt n res tr ->
  In a (attempts tr) -> att_outcome a = Returned text ->
  res = Some (strip text)
  /\ exists pre post,
       models = pre ++ att_model a :: post
       /\ map att_model (attempts tr) = pre ++ [att_model a].
Proof.
  intros (_ & _ & fails & Hfails & Hres) Hin Hout.
  assert (Hnot : ~ In a fails).
  { intros Hf. rewrite Forall_forall in Hfails. specialize (Hfails a Hf).
    unfold failed in Hfails. rewrite Hout in Hfails. exact Hfails. }
  destruct res as [r |].
  - destruct Hres as (m & text' & post & Hr & Ha & Hm).
    rewrite Ha in Hin. apply in_app_or in Hin.
    destruct Hin as [Hin | [Hin | []]]; [contradiction |].
    subst a. cbn in Hout. injection Hout as ->.
    split; [rewrite Hr; reflexivity |].
    exists (map att_model fails), post. cbn [att_model].
    split; [exact Hm |]. rewrite Ha, map_app. reflexivity.
  - destruct Hres as [Ha _]. rewrite Ha in Hin. contradiction.
Qed.

(** A run whose attempts all raised answers [None]. *)
Lemma cascade_run_all_failed models prompt n res tr :
  cascade_run models prompt n res tr ->
  Forall failed (attempts tr) -> res = None.
Proof.
  intros (_ & _ & fails & _ & Hres) Hall. destruct res as [r |]; [| auto].
  destruct Hres as (m & text & post & _ & Ha & _).
  rewrite Ha in Hall. apply Forall_app in Hall. destruct Hall as [_ Hlast].
  inversion Hlast as [| ? ? Hf _]. destruct Hf.
Qed.

(** [glosses_to_natural_text] on a non-empty list, in terms of the one
    call of [try_models] it makes. *)
Lemma glosses_to_natural_text_run (glosses : list str) w :
  glosses <> [] ->
  let run := glosses_to_natural_text generate_content glosses w in
  let cascade :=
    try_models generate_content
      (glosses_prompt (join (lit " ") glosses)) 100 w in
  fst (fst run)
    = match fst (fst cascade) with
      | Some (c :: r) => c :: r
      | _ => local_text glosses
      end
  /\ attempts (snd run) = attempts (snd cascade).
Proof.
  intros Hne. destruct glosses as [| g glosses]; [contradiction |].
  cbv zeta. unfold glosses_to_natural_text, bind, print, ret.
  destruct (try_models _ _ _ w) as [[res w1] tr]. cbn [fst snd].
  destruct res as [[| c r] |]; cbn [fst snd];
    rewrite ?attempts_app, ?app_nil_r; cbn; rewrite ?app_nil_r; auto.
Qed.


(** When every backend has raised, [glosses_to_natural_text] returns the
    local fallback. *)
Lemma all_failed_local_text (glosses : list str) w :
  let run := glosses_to_natural_text generate_content glosses w in
  glosses <> [] ->
  Forall failed (attempts (snd run)) ->
  fst (fst run) = local_text glosses.
Proof.
  intros run Hne Hall.
  destruct (glosses_to_natural_text_run glosses w Hne) as [Hres Hatt].
  subst run. rewrite Hatt in Hall. rewrite Hres.
  unfold try_models in *.
  rewrite (cascade_run_all_failed _ _ _ _ _
             (try_models_from_spec MODELS _ 100 w) Hall).
  reflexivity.
Qed.

(** When every backend has raised, [natural_text_to_glosses] returns the
    local fallback, provided the text is not blank. *)
Lemma all_failed_local_glosses (text : str) w :
  let run := natural_text_to_glosses generate_content text w in
  truthy (strip text) = true ->
  Forall failed (attempts (snd run)) ->
  fst (fst run) = local_glosses text.
Proof.
  cbv zeta. intros Hstrip. unfold natural_text_to_glosses.
  destruct text as [| t text]; [discriminate Hstrip |].
  rewrite Hstrip. cbn [truthy negb orb].
  unfold bind, print, ret.
  pose proof (try_models_from_spec MODELS (text_prompt (t :: text)) 50 w)
    as Hrun.
  unfold try_models.
  destruct (try_models_from generate_content MODELS _ 50 w)
    as [[res w1] tr].
  cbn [fst snd] in Hrun.
  destruct res as [[| c r] |]; cbn [fst snd]; try reflexivity.
  rewrite !attempts_app.
  change (attempts [Printed ?line]) with (@nil Attempt).
  change (attempts []) with (@nil Attempt).
  rewrite !app_nil_r. cbn [app]. intros Hall.
  discriminate (cascade_run_all_failed _ _ _ _ _ Hrun Hall).
Qed.

End Facts.

(** How the reading of the text ends for each result of the call. *)
Lemma outcome_returned (r : GeminiSdk.SdkResult) (text : str) :
  GeminiSdk.outcome r = Returned text
  <-> r = GeminiSdk.Responded (Some text).
Proof.
  destruct r as [[t |] | e]; cbn; split; intros H;
    try discriminate H; injection H as ->; reflexivity.
Qed.

(** C5, as the code has it.  A backend call that returns a response with a
    text ends the cascade: [try_models] answers the stripped text, empty or
    not, and the models after it are not called; when the stripped text is
    empty, [glosses_to_natural_text] takes the answer for a failure of the
    whole cascade and returns the local fallback.  An attempt is recorded
    as returned exactly when the call returned a response with a text: a
    call that returns a response without text is handled as the calls that
    raise, with the message of [None.strip()], and the loop goes on with
    the next model. *)
Theorem text_response_ends_cascade (U : Casing) (World : Type)
    (sdk : str -> str -> nat -> World -> GeminiSdk.SdkResult * World) :
  let generate_content := GeminiSdk.call_and_read_text sdk in
  (forall prompt n w a text,
     let cascade := try_models generate_content prompt n w in
     In a (attempts (snd cascade)) -> att_outcome a = Returned text ->
     fst (fst cascade) = Some (strip text)
     /\ exists pre post,
          MODELS = pre ++ att_model a :: post
          /\ map att_model (attempts (snd cascade)) = pre ++ [att_model a])
  /\ (forall glosses w a text,
        let run := glosses_to_natural_text generate_content glosses w in
        glosses <> [] ->
        In a (attempts (snd run)) -> att_outcome a = Returned text ->
        strip text = [] ->
        fst (fst run) = local_text glosses
        /\ exists pre post,
             MODELS = pre ++ att_model a :: post
             /\ map att_model (attempts (snd run)) = pre ++ [att_model a])
  /\ (forall model contents n w text,
        fst (generate_content model contents n w) = Returned text
        <-> fst (sdk model contents n w) = GeminiSdk.Responded (Some text))
  /\ (forall model models prompt n w w1 text,
        sdk model prompt n w = (GeminiSdk.Responded (Some text), w1) ->
        try_models_from generate_content (model :: models) prompt n w
        = (Some (strip text), w1,
           [Called (mkAttempt model prompt n (Returned text));
            Printed (Worked model)]))
  /\ (forall model models prompt n w w1,
        sdk model prompt n w = (GeminiSdk.Responded None, w1) ->
        try_models_from generate_content (model :: models) prompt n w
        = let '(res, w2, tr) :=
            try_models_from generate_content models prompt n w1 in
          let a :=
            mkAttempt model prompt n (Raised GeminiSdk.none_has_no_strip) in
          (res, w2, Called a :: Printed (line_of a) :: tr)).
Proof.
  cbv zeta. split; [| split; [| split; [| split]]].
  - intros prompt n w a text Hin Hout.
    eapply cascade_run_returned;
      [apply (try_models_from_spec World) | exact Hin | exact Hout].
  - intros glosses w a text Hne Hin Hout Hempty.
    destruct (glosses_to_natural_text_run World
                (GeminiSdk.call_and_read_text sdk) glosses w Hne)
      as [Hres Hatt].
    rewrite Hatt in Hin |- *.
    assert (Hrun : fst (fst (try_models (GeminiSdk.call_and_read_text sdk)
                               (glosses_prompt (join (lit " ") glosses))
                               100 w))
                   = Some (strip text)
                   /\ exists pre post,
                        MODELS = pre ++ att_model a :: post
                        /\ map att_model
                             (attempts
                                (snd (try_models
                                        (GeminiSdk.call_and_read_text sdk)
                                        (glosses_prompt
                                           (join (lit " ") glosses))
                                        100 w)))
                           = pre ++ [att_model a]).
    { eapply cascade_run_returned;
        [apply (try_models_from_spec World) | exact Hin | exact Hout]. }
    destruct Hrun as [Hsome Hlast].
    split; [| exact Hlast].
    rewrite Hres, Hsome, Hempty. reflexivity.
  - intros model contents n w text. unfold GeminiSdk.call_and_read_text.
    destruct (sdk model contents n w) as [r w1]. cbn [fst].
    apply outcome_returned.
  - intros model models prompt n w w1 text E.
    apply from_models_returned. unfold GeminiSdk.call_and_read_text.
    rewrite E. reflexivity.
  - intros model models prompt n w w1 E.
    apply from_models_raised. unfold GeminiSdk.call_and_read_text.
    rewrite E. reflexivity.
Qed.

(** *** Strings *)

Lemma eqb_eq (a b : str) : PyStr.eqb a b = true <-> a = b.
Proof.
  revert b. induction a as [| x a IH]; intros [| y b]; cbn;
    try (split; [discriminate | discriminate]); [tauto |].
  rewrite andb_true_iff, N.eqb_eq, IH.
  split; [intros [-> ->]; reflexivity | intros [= -> ->]; auto].
Qed.

Lemma in_stop_words_false (w : str) :
  in_stop_words w = false -> ~ In w stop_words.
Proof.
  unfold in_stop_words. intros H Hin.
  assert (existsb (PyStr.eqb w) stop_words = true); [| congruence].
  apply existsb_exists. exists w. split; [exact Hin | apply eqb_eq; auto].
Qed.

Lemma remove_chars_spec (class s : str) :
  Forall (fun c => ~ In c class /\ In c s) (remove_chars class s).
Proof.
  unfold remove_chars. apply Forall_forall. intros c Hc.
  apply filter_In in Hc. destruct Hc as [Hin Hnot]. split; [| exact Hin].
  intros Hclass. apply negb_true_iff in Hnot.
  assert (existsb (N.eqb c) class = true); [| congruence].
  apply existsb_exists. exists c. split; [exact Hclass | apply N.eqb_refl].
Qed.

(** The tokens of [split]: none is empty, none holds a space, and their
    characters are characters of the string. *)
Lemma split_from_tokens (Q : char -> Prop) (s : str) :
  forall tok,
    Forall Q s ->
    Forall (fun c => isspace c = false /\ Q c) tok ->
    Forall (fun w => w <> [] /\ Forall (fun c => isspace c = false /\ Q c) w)
      (split_from tok s).
Proof.
  assert (Hrev : forall tok : str,
            Forall (fun c => isspace c = false /\ Q c) tok ->
            tok <> [] ->
            rev tok <> []
            /\ Forall (fun c => isspace c = false /\ Q c) (rev tok)).
  { intros tok Htok Hne. split.
    - intros Hnil. apply Hne. rewrite <- (rev_involutive tok), Hnil.
      reflexivity.
    - apply Forall_rev. exact Htok. }
  induction s as [| c s IH]; intros tok Hs Htok.
  - cbn. destruct tok as [| t tok]; [constructor |].
    constructor; [| constructor]. apply Hrev; [exact Htok | discriminate].
  - cbn [split_from]. inversion Hs as [| ? ? Hc Hs']; subst.
    destruct (isspace c) eqn:Ec.
    + destruct tok as [| t tok].
      * apply IH; [exact Hs' | constructor].
      * constructor; [apply Hrev; [exact Htok | discriminate] |].
        apply IH; [exact Hs' | constructor].
    + apply IH; [exact Hs' |]. constructor; [split; assumption | exact Htok].
Qed.

Lemma split_tokens (Q : char -> Prop) (s : str) :
  Forall Q s ->
  Forall (fun w => w <> [] /\ Forall (fun c => isspace c = false /\ Q c) w)
    (split s).
Proof. intros Hs. apply split_from_tokens; [exact Hs | constructor]. Qed.

Lemma join_nonempty (sep : str) (parts : list str) :
  sep <> [] ->
  (exists p, In p parts /\ p <> []) \/ 2 <= length parts ->
  join sep parts <> [].
Proof.
  intros Hsep H. destruct parts as [| p [| q parts]].
  - destruct H as [(p & [] & _) | H]; cbn in H; lia.
  - destruct H as [(x & [<- | []] & Hx) | H]; [exact Hx | cbn in H; lia].
  - cbn [join]. intros Hnil. apply app_eq_nil in Hnil.
    destruct Hnil as [_ Hnil]. apply app_eq_nil in Hnil.
    destruct Hnil as [Hnil _]. contradiction.
Qed.

Lemma capitalize_first_nonempty (U : Casing) (laws : CasingLaws U) (s : str) :
  s <> [] -> capitalize_first s <> [].
Proof.
  destruct s as [| c tail]; [contradiction |]. intros _. cbn.
  intros H. apply app_eq_nil in H. destruct H as [H _].
  apply (upper_nonempty U laws) in H. discriminate.
Qed.

Lemma local_text_nonempty (U : Casing) (laws : CasingLaws U)
    (glosses : list str) :
  join (lit " ") glosses <> [] -> local_text glosses <> [].
Proof.
  intros Hne. unfold local_text.
  apply (capitalize_first_nonempty U laws).
  intros H. apply (lower_nonempty U laws) in H.
  apply map_eq_nil in H. contradiction.
Qed.

(** The Latin-1 tables obey the laws. *)
Lemma latin1_toupper_fixed (c : char) :
  flat_map latin1_toupper (latin1_toupper c) = latin1_toupper c.
Proof.
  unfold latin1_toupper.
  repeat match goal with
         | |- context [(?a <=? ?b)%N] =>
             destruct (N.leb_spec a b); cbn [andb negb orb]
         | |- context [(?a =? ?b)%N] =>
             destruct (N.eqb_spec a b); cbn [andb negb orb]
         end;
    try lia; try reflexivity; cbn [flat_map app];
    unfold latin1_toupper;
    repeat match goal with
           | |- context [(?a <=? ?b)%N] =>
               destruct (N.leb_spec a b); cbn [andb negb orb]
           | |- context [(?a =? ?b)%N] =>
               destruct (N.eqb_spec a b); cbn [andb negb orb]
           end;
    try lia; try reflexivity.
Qed.

Lemma flat_map_nonempty (f : char -> str) (s : str) :
  (forall c, f c <> []) -> flat_map f s = [] -> s = [].
Proof.
  intros Hf. destruct s as [| c s]; [reflexivity |]. cbn. intros H.
  apply app_eq_nil in H. destruct H as [H _]. destruct (Hf c H).
Qed.

Lemma latin1_laws : CasingLaws latin1.
Proof.
  split; cbn [upper lower latin1].
  - induction s as [| c s IH]; [reflexivity |].
    cbn [flat_map]. rewrite flat_map_app, latin1_toupper_fixed, IH.
    reflexivity.
  - intros s. apply flat_map_nonempty. intros c. unfold latin1_toupper.
    repeat match goal with
           | |- context [if ?b then _ else _] => destruct b
           end; discriminate.
  - intros s. apply flat_map_nonempty. intros c. unfold latin1_tolower.
    repeat match goal with
           | |- context [if ?b then _ else _] => destruct b
           end; discriminate.
Qed.

(** C4, as the code has it.  When every backend has raised,
    [glosses_to_natural_text] returns the local fallback, which is
    [Hola mundo] for HOLA, MUNDO; and whatever the backends do, the result
    is not empty when the list holds a non-empty gloss or at least two
    glosses, that is, when the glosses joined with spaces are not the empty
    string. *)
Theorem fallback_text_when_all_backends_fail (U : Casing)
    (laws : CasingLaws U) (World : Type)
    (generate_content : str -> str -> nat -> World -> Response * World)
    (glosses : list str) (w : World) :
  let run := glosses_to_natural_text generate_content glosses w in
  (glosses <> [] -> Forall failed (attempts (snd run)) ->
   fst (fst run) = local_text glosses)
  /\ ((exists g, In g glosses /\ g <> []) \/ 2 <= length glosses ->
      join (lit " ") glosses <> [] /\ fst (fst run) <> [])
  /\ local_text (U := latin1) [lit "HOLA"; lit "MUNDO"] = lit "Hola mundo".
Proof.
  cbv zeta. split; [| split].
  - apply all_failed_local_text.
  - intros Hglosses.
    assert (Hjoin : join (lit " ") glosses <> []).
    { apply join_nonempty; [discriminate | exact Hglosses]. }
    split; [exact Hjoin |].
    assert (Hne : glosses <> []) by (intros ->; apply Hjoin; reflexivity).
    destruct (glosses_to_natural_text_run World generate_content glosses w
                Hne) as [Hres _].
    rewrite Hres.
    destruct (fst (fst (try_models _ _ _ _))) as [[| c r] |];
      try discriminate; apply (local_text_nonempty U laws); exact Hjoin.
  - reflexivity.
Qed.

(** The fallback list is never empty. *)
Lemma local_glosses_not_nil (U : Casing) (text : str) :
  local_glosses text <> [].
Proof.
  unfold local_glosses. destruct (map upper _); discriminate.
Qed.

(** The guard of [natural_text_to_glosses] is a test of the stripped
    text. *)
Lemma blank_guard (text : str) :
  negb (truthy text) || negb (truthy (strip text))
  = negb (truthy (strip text)).
Proof. destruct text; reflexivity. Qed.

(** C8, as the code has it.  A blank text (empty, or white space only)
    gets the empty list at once, without a call.  For any other text, when
    every backend has raised, [natural_text_to_glosses] returns the local
    fallback: the text is lower-cased, the characters [¿ ? ¡ ! . , ; :]
    (and no other) are removed and the rest is split at white space; the
    tokens kept are those outside the stop words and longer than one
    character, and they are returned upper-cased, in order; when none is
    kept the result is the upper-cased text alone; so the list returned is
    not empty.  A token is a non-empty run of characters of the
    lower-cased text, none of them white space or one of the eight
    characters. *)
Theorem fallback_glosses_when_all_backends_fail (U : Casing) (World : Type)
    (generate_content : str -> str -> nat -> World -> Response * World)
    (text : str) (w : World) :
  let run := natural_text_to_glosses generate_content text w in
  let tokens := split (remove_chars punctuation (lower text)) in
  let kept :=
    filter (fun x => negb (in_stop_words x) && (1 <? length x)) tokens in
  punctuation = [191; 63; 161; 33; 46; 44; 59; 58]%N
  /\ (truthy (strip text) = false -> run = ([], w, []))
  /\ (truthy (strip text) = true ->
      Forall failed (attempts (snd run)) ->
      fst (fst run)
      = match kept with
        | [] => [upper text]
        | _ :: _ => map upper kept
        end
      /\ fst (fst run) <> []
      /\ printed (snd run)
         = Converting text
           :: map line_of (attempts (snd run))
           ++ [AllExhausted; GlossFallback (fst (fst run))]
      /\ map att_model (attempts (snd run)) = MODELS)
  /\ (forall x, In x kept <->
                In x tokens /\ ~ In x stop_words /\ 1 < length x)
  /\ (forall c, In c (remove_chars punctuation (lower text)) <->
                In c (lower text) /\ ~ In c punctuation)
  /\ Forall (fun x => x <> []
                      /\ Forall (fun c => isspace c = false
                                          /\ ~ In c punctuation
                                          /\ In c (lower text)) x) tokens.
Proof.
  cbv zeta.
  split; [reflexivity |].
  split; [| split; [| split; [| split]]].
  - intros Hblank. unfold natural_text_to_glosses.
    rewrite blank_guard, Hblank. reflexivity.
  - intros Hstrip Hall.
    pose proof (all_failed_local_glosses World generate_content text w
                  Hstrip Hall) as Hres.
    rewrite Hres.
    split; [| split; [apply local_glosses_not_nil |]].
    { unfold local_glosses. fold punctuation.
      destruct (filter _ _) as [| k kept]; reflexivity. }
    revert Hall. clear Hres.
    unfold natural_text_to_glosses. rewrite blank_guard, Hstrip.
    cbn [negb]. unfold bind, print, ret, try_models.
    pose proof (try_models_from_spec World generate_content MODELS
                  (text_prompt text) 50 w) as Hrun.
    destruct (try_models_from generate_content MODELS _ 50 w)
      as [[res w1] tr].
    cbn [fst snd] in Hrun.
    destruct res as [[| c r] |]; cbn [fst snd];
      rewrite !attempts_app, !printed_app;
      change (attempts [Printed ?line]) with (@nil Attempt);
      change (attempts []) with (@nil Attempt);
      change (printed [Printed ?line]) with [line];
      change (printed []) with (@nil LogLine);
      rewrite ?app_nil_r; cbn [app]; intros Hall;
      try discriminate (cascade_run_all_failed _ _ _ _ _ Hrun Hall).
    destruct Hrun as (Hp & _ & fails & _ & Ha & Hm).
    split; [| rewrite Ha; exact Hm].
    rewrite Hp, <- app_assoc. reflexivity.
  - intros x. rewrite filter_In, andb_true_iff, negb_true_iff.
    rewrite Nat.ltb_lt. split.
    + intros (Hin & Hstop & Hlen).
      split; [exact Hin |].
      split; [apply in_stop_words_false, Hstop | exact Hlen].
    + intros (Hin & Hstop & Hlen). split; [exact Hin |]. split; [| exact Hlen].
      destruct (in_stop_words x) eqn:E; [| reflexivity].
      exfalso. apply Hstop. unfold in_stop_words in E.
      apply existsb_exists in E. destruct E as (y & Hy & Heq).
      apply eqb_eq in Heq. subst y. exact Hy.
  - intros c. unfold remove_chars. rewrite filter_In, negb_true_iff.
    split; intros [Hin Hnot]; (split; [exact Hin |]).
    + intros Hp.
      assert (existsb (N.eqb c) punctuation = true); [| congruence].
      apply existsb_exists. exists c. split; [exact Hp | apply N.eqb_refl].
    + destruct (existsb (N.eqb c) punctuation) eqn:E; [| reflexivity].
      exfalso. apply Hnot. apply existsb_exists in E.
      destruct E as (y & Hy & Heq). apply N.eqb_eq in Heq. subst y. exact Hy.
  - apply (split_tokens (fun c => ~ In c punctuation /\ In c (lower text))).
    apply remove_chars_spec.
Qed.

(** C10.  Every gloss [natural_text_to_glosses] returns, from a backend or
    from the local fallback, is non-empty and is its own upper-casing. *)
Theorem returned_glosses_are_upper_case (U : Casing) (laws : CasingLaws U)
    (World : Type)
    (generate_content : str -> str -> nat -> World -> Response * World)
    (text : str) (w : World) :
  Forall (fun g => g <> [] /\ upper g = g)
    (fst (fst (natural_text_to_glosses generate_content text w))).
Proof.
  assert (Hup : forall s, s <> [] -> upper s <> [] /\ upper (upper s) = upper s).
  { intros s Hs. split; [| apply (upper_idempotent U laws)].
    intros H. apply Hs, (upper_nonempty U laws), H. }
  unfold natural_text_to_glosses.
  destruct text as [| t text]; [constructor |].
  cbn [truthy negb orb].
  destruct (truthy (strip (t :: text))); cbn [negb]; [| constructor].
  unfold bind, print, ret.
  destruct (try_models generate_content _ 50 w) as [[res w1] tr].
  assert (Hlocal : Forall (fun g => g <> [] /\ upper g = g)
                     (local_glosses (t :: text))).
  { unfold local_glosses.
    set (kept := filter _ _).
    assert (Hkept : Forall (fun g => g <> [] /\ upper g = g) (map upper kept)).
    { apply Forall_forall. intros g Hg. apply in_map_iff in Hg.
      destruct Hg as (x & <- & Hx). apply Hup.
      apply filter_In in Hx. destruct Hx as [_ Hx].
      apply andb_true_iff in Hx. destruct Hx as [_ Hx].
      apply Nat.ltb_lt in Hx. destruct x; [cbn in Hx; lia | discriminate]. }
    destruct (map upper kept) eqn:E; [| exact Hkept].
    constructor; [| constructor]. apply Hup. discriminate. }
  destruct res as [[| c r] |]; cbn [fst snd]; try exact Hlocal.
  apply Forall_forall. intros g Hg. apply in_map_iff in Hg.
  destruct Hg as (x & <- & Hx). apply Hup.
  apply filter_In in Hx. destruct Hx as [_ Hx].
  destruct (strip x); [discriminate Hx | discriminate].
Qed.

(** *** Concrete runs, on the Latin-1 tables *)

Example punctuation_code_points :
  punctuation = [191; 63; 161; 33; 46; 44; 59; 58]%N.
Proof. reflexivity. Qed.

Example second_backend_answers :
  let run :=
    try_models (U := latin1) first_exhausted (lit "HOLA") 100 tt in
  fst (fst run) = Some (lit "Hola")
  /\ map att_model (attempts (snd run))
     = [lit "gemini-1.5-flash"; lit "gemini-2.5-flash-lite"]
  /\ printed (snd run)
     = [Exhausted (lit "gemini-1.5-flash");
        Worked (lit "gemini-2.5-flash-lite")].
Proof. vm_compute. auto. Qed.

Example local_text_examples :
  local_text (U := latin1) [lit "BUENOS_DIAS"; lit "ÑANDU"]
    = lit "Buenos dias ñandu"
  /\ local_text (U := latin1) [lit ""; lit ""] = lit " "
  /\ local_text (U := latin1) [lit ""] = lit "".
Proof. vm_compute. auto. Qed.

Example local_glosses_examples :
  local_glosses (U := latin1) (lit "¿Cómo estás?")
    = [lit "CÓMO"; lit "ESTÁS"]
  /\ local_glosses (U := latin1) (lit "Yo quiero ir a la casa de mi mamá.")
     = [lit "YO"; lit "QUIERO"; lit "IR"; lit "CASA"; lit "MAMÁ"]
  /\ local_glosses (U := latin1) (lit "a la y") = [lit "A LA Y"]
  /\ local_glosses (U := latin1) (lit " ") = [lit " "].
Proof. vm_compute. auto. Qed.

(** C8 as the spec states it fails: a text of one space is not empty, and
    the list returned for it is; and of the punctuation only eight
    characters are removed, so parentheses stay in the glosses. *)
Lemma nonempty_text_empty_gloss_list :
  ~ (forall text : str,
       text <> [] ->
       fst (fst (natural_text_to_glosses (U := latin1) unavailable
                   text tt)) <> [])
  /\ fst (fst (natural_text_to_glosses (U := latin1) unavailable
                 (lit "hola (mundo)") tt))
     = [lit "HOLA"; lit "(MUNDO)"].
Proof.
  split; [| reflexivity].
  intros H. apply (H (lit " ")); [discriminate | reflexivity].
Qed.

Lemma fallback_glosses_when_all_backends_fail_witness :
  fst (fst (natural_text_to_glosses (U := latin1) unavailable
              (lit "¿Cómo estás?") tt))
  = [lit "CÓMO"; lit "ESTÁS"]
  /\ natural_text_to_glosses (U := latin1) unavailable (lit " ") tt
     = ([], tt, []).
Proof.
  pose proof (fallback_glosses_when_all_backends_fail latin1 unit
                unavailable (lit "¿Cómo estás?") tt) as H.
  pose proof (fallback_glosses_when_all_backends_fail latin1 unit
                unavailable (lit " ") tt) as Hblank.
  cbv zeta in H, Hblank.
  destruct H as (_ & _ & H & _). destruct Hblank as (_ & Hblank & _).
  split.
  - destruct H as (Hres & _).
    + reflexivity.
    + vm_compute. repeat constructor.
    + rewrite Hres. reflexivity.
  - apply Hblank. reflexivity.
Defined.

(** C4 as the spec states it fails: the list that holds one empty gloss is
    not empty, and with the service down the result for it is the empty
    string. *)
Lemma nonempty_gloss_list_empty_text :
  ~ (forall glosses : list str,
       glosses <> [] ->
       fst (fst (glosses_to_natural_text (U := latin1) unavailable
                   glosses tt)) <> []).
Proof.
  intros H. apply (H [lit ""]); [discriminate | reflexivity].
Qed.

Lemma fallback_text_when_all_backends_fail_witness :
  fst (fst (glosses_to_natural_text (U := latin1) unavailable
              [lit "HOLA"; lit "MUNDO"] tt))
    = local_text (U := latin1) [lit "HOLA"; lit "MUNDO"]
  /\ fst (fst (glosses_to_natural_text (U := latin1) unavailable
                 [lit "HOLA"; lit "MUNDO"] tt)) <> [].
Proof.
  pose proof (fallback_text_when_all_backends_fail latin1 latin1_laws unit
                unavailable [lit "HOLA"; lit "MUNDO"] tt) as H.
  cbv zeta in H. destruct H as (Hfail & Hne & _). split.
  - apply Hfail; [discriminate |]. vm_compute. repeat constructor.
  - apply Hne. right. cbn. lia.
Defined.

(** C5 as the spec states it fails: the call of the first model returns a
    response, without raising, and the cascade does not end there; the
    response has no text, and the second model is called. *)
Lemma response_without_text_is_not_final :
  ~ (forall (sdk : str -> str -> nat -> unit -> GeminiSdk.SdkResult * unit)
       (prompt : str) (n : nat) (response_text : option str),
       fst (sdk (lit "gemini-1.5-flash") prompt n tt)
       = GeminiSdk.Responded response_text ->
       map att_model
         (attempts
            (snd (try_models (U := latin1)
                    (GeminiSdk.call_and_read_text sdk) prompt n tt)))
       = [lit "gemini-1.5-flash"]).
Proof.
  intros H.
  specialize (H first_without_text (lit "HOLA") 100 None eq_refl).
  vm_compute in H. discriminate H.
Qed.

Example response_without_text_run :
  let run :=
    try_models (U := latin1)
      (GeminiSdk.call_and_read_text first_without_text) (lit "HOLA") 100 tt in
  fst (fst run) = Some (lit "Hola")
  /\ map att_model (attempts (snd run))
     = [lit "gemini-1.5-flash"; lit "gemini-2.5-flash-lite"]
  /\ printed (snd run)
     = [Failed (lit "gemini-1.5-flash") GeminiSdk.none_has_no_strip;
        Worked (lit "gemini-2.5-flash-lite")].
Proof. vm_compute. auto. Qed.

Lemma text_response_ends_cascade_witness :
  fst (fst (glosses_to_natural_text (U := latin1)
              (GeminiSdk.call_and_read_text first_blank_text)
              [lit "HOLA"; lit "MUNDO"] tt))
    = local_text (U := latin1) [lit "HOLA"; lit "MUNDO"]
  /\ exists pre post,
       MODELS = pre ++ lit "gemini-1.5-flash" :: post
       /\ map att_model
            (attempts
               (snd (glosses_to_natural_text (U := latin1)
                       (GeminiSdk.call_and_read_text first_blank_text)
                       [lit "HOLA"; lit "MUNDO"] tt)))
          = pre ++ [lit "gemini-1.5-flash"].
Proof.
  apply (proj1 (proj2 (text_response_ends_cascade latin1 unit
                         first_blank_text))
           [lit "HOLA"; lit "MUNDO"] tt
           (mkAttempt (lit "gemini-1.5-flash")
              (glosses_prompt (lit "HOLA MUNDO")) 100 (Returned (lit " ")))
           (lit " ")).
  - discriminate.
  - vm_compute. left. reflexivity.
  - reflexivity.
  - reflexivity.
Defined.

Lemma returned_glosses_are_upper_case_witness :
  Forall (fun g => g <> [] /\ upper (Casing := latin1) g = g)
    (fst (fst (natural_text_to_glosses (U := latin1) lower_case_glosses
                 (lit "yo quiero una casa") tt))).
Proof.
  apply (returned_glosses_are_upper_case latin1 latin1_laws unit
           lower_case_glosses (lit "yo quiero una casa") tt).
Defined.

Example backend_glosses_example :
  fst (fst (natural_text_to_glosses (U := latin1) lower_case_glosses
              (lit "yo quiero una casa") tt))
  = [lit "YO"; lit "QUERER"; lit "CASA"].
Proof. reflexivity. Qed.

End CascadeFacts.

(* ===================================================================== *)
(** ** Further properties of the gesture segmenter *)
(* ===================================================================== *)

Module SegmenterRuns.
Import DeafMode Terms MoreTerms Scenarios SegmenterFacts.

Section Runs.

Variable Landmarks : Type.
Variable infer : list Landmarks -> str * float.

Abbreviation window := (DeafModeWindow Landmarks).
Abbreviation step := (process_fsm infer).

Lemma feed_app (w : window) frames1 frames2 :
  feed infer w (frames1 ++ frames2)
  = feed infer (feed infer w frames1) frames2.
Proof. unfold feed. apply fold_left_app. Qed.

(** One frame, as seen by the state machine: what it does depends on the
    window only through [fsm_view], and not on the classifier. *)
Lemma step_view (infer' : list Landmarks -> str * float) (w w' : window) l p :
  fsm_view w = fsm_view w' ->
  fsm_view (step w l p) = fsm_view (process_fsm infer' w' l p).
Proof.
  unfold fsm_view at 1 2. intros [= Es Ep Ea Eb Ec].
  destruct (state w) eqn:E.
  - rewrite (step_idle Landmarks infer w l p E).
    rewrite (step_idle Landmarks infer' w' l p (eq_sym Es)).
    cbv zeta. rewrite Ep, Ec, Eb.
    destruct (Config.START_STREAK <=? _); reflexivity.
  - pose proof (step_recording Landmarks infer w l p E) as H.
    pose proof (step_recording Landmarks infer' w' l p (eq_sym Es)) as H'.
    cbv zeta in H, H'. unfold gesture_ends in H, H'.
    rewrite <- Ep, <- Ea, <- Eb, <- Ec in H'.
    unfold fsm_view.
    destruct ((Config.END_STREAK <=? _) || _);
      destruct H as (-> & -> & -> & -> & ->);
      destruct H' as (-> & -> & -> & -> & ->); reflexivity.
Qed.

Lemma feed_view (infer' : list Landmarks -> str * float) frames :
  forall w w' : window,
    fsm_view w = fsm_view w' ->
    fsm_view (feed infer w frames) = fsm_view (feed infer' w' frames).
Proof.
  induction frames as [| f frames IH]; intros w w' E; [exact E |].
  cbn [feed fold_left]. apply IH, step_view, E.
Qed.

(** One frame keeps the counters as [streaks_ok] says. *)
Lemma step_streaks_ok (w : window) l p :
  streaks_ok w -> streaks_ok (step w l p).
Proof.
  unfold streaks_ok at 1. intros Hw. destruct (state w) eqn:E.
  - destruct Hw as (Hp & _ & Hb).
    rewrite (step_idle Landmarks infer w l p E). cbv zeta.
    destruct (Nat.leb_spec Config.START_STREAK
                (if p then present_streak w + 1 else 0)) as [Hge | Hlt];
      unfold streaks_ok; cbn.
    + unfold Config.END_STREAK, Config.MAX_SIGN_FRAMES. lia.
    + split; [exact Hlt | split; [reflexivity | exact Hb]].
  - destruct Hw as (Ha & Hlen & Hsum & Hzero).
    pose proof (step_recording Landmarks infer w l p E) as H.
    cbv zeta in H. unfold gesture_ends in H.
    destruct ((Config.END_STREAK <=? _) || _) eqn:Eend.
    + pose proof H as (Hs & Hp' & _ & Hb & _).
      unfold streaks_ok. rewrite Hs, Hp', Hb.
      destruct H as (_ & _ & Ha' & _). rewrite Ha'.
      unfold Config.START_STREAK. split; [lia | split; reflexivity].
    + destruct H as (Hs & Hp' & Ha' & Hb & _).
      apply orb_false_iff in Eend. destruct Eend as [Eabs Emax].
      apply Nat.leb_gt in Eabs, Emax.
      unfold streaks_ok. rewrite Hs, Hp', Ha', Hb, length_app. cbn [length].
      destruct p; cbn [negb] in *; repeat split; try lia.
Qed.

Lemma feed_streaks_ok frames :
  forall w : window, streaks_ok w -> streaks_ok (feed infer w frames).
Proof.
  induction frames as [| f frames IH]; intros w Hw; [exact Hw |].
  cbn [feed fold_left]. apply IH, step_streaks_ok, Hw.
Qed.

(** X1.  The classifier has no say in the segmentation: fed the same
    frames, two windows that differ in their classifier alone go through
    the same states, streaks and buffers and hand the same buffers to their
    classifiers. *)
Theorem segmentation_ignores_classifier
    (infer' : list Landmarks -> str * float) (w : window)
    (frames : list (Landmarks * bool)) :
  state (feed infer w frames) = state (feed infer' w frames)
  /\ present_streak (feed infer w frames)
     = present_streak (feed infer' w frames)
  /\ absent_streak (feed infer w frames)
     = absent_streak (feed infer' w frames)
  /\ seq_buffer (feed infer w frames) = seq_buffer (feed infer' w frames)
  /\ classified (feed infer w frames) = classified (feed infer' w frames).
Proof.
  pose proof (feed_view infer' frames w w eq_refl) as H.
  unfold fsm_view in H. injection H as -> -> -> -> ->. repeat split.
Qed.

(** X2.  After a reset and any frames: while IDLE the present streak is
    below START_STREAK, the absent streak is 0 and the buffer is empty;
    while RECORDING the absent streak is below END_STREAK, the buffer is
    shorter than MAX_SIGN_FRAMES, one of the two streaks is 0 and neither
    counts more frames than the buffer holds. *)
Theorem streak_counters_bounded (w : window)
    (frames : list (Landmarks * bool)) :
  let w' := feed infer (reset w) frames in
  match state w' with
  | IDLE =>
      present_streak w' < Config.START_STREAK
      /\ absent_streak w' = 0
      /\ seq_buffer w' = []
  | RECORDING =>
      absent_streak w' < Config.END_STREAK
      /\ length (seq_buffer w') < Config.MAX_SIGN_FRAMES
      /\ (present_streak w' = 0 \/ absent_streak w' = 0)
      /\ present_streak w' <= length (seq_buffer w')
      /\ absent_streak w' <= length (seq_buffer w')
  end.
Proof.
  cbv zeta.
  assert (Hok : streaks_ok (feed infer (reset w) frames)).
  { apply feed_streaks_ok. unfold streaks_ok. cbn.
    unfold Config.START_STREAK. repeat split; lia. }
  unfold streaks_ok in Hok.
  destruct (state (feed infer (reset w) frames)); [exact Hok |].
  destruct Hok as (Ha & Hlen & Hsum & Hzero). repeat split; auto; lia.
Qed.

(** What one frame adds to the record of classified buffers, to the
    ledger and to the log. *)
Lemma step_effects (w : window) l p :
  classified (step w l p) = classified w ++ step_emits w l p
  /\ detected_glosses (step w l p)
     = detected_glosses w
       ++ map (fun buf => fst (infer buf)) (step_emits w l p)
  /\ stdout (step w l p)
     = stdout w ++ map (line_for infer) (step_emits w l p).
Proof.
  unfold step_emits. destruct (state w) eqn:E.
  - rewrite (step_idle Landmarks infer w l p E). cbv zeta.
    destruct (Config.START_STREAK <=? _); cbn; rewrite !app_nil_r; auto.
  - destruct w as [st ps ab buf glosses out cls]. cbn [state] in E. subst st.
    unfold process_fsm, gesture_ends, classify_sequence, line_for.
    cbv beta iota zeta delta
      [state present_streak absent_streak seq_buffer detected_glosses stdout
       classified set_state set_present_streak set_absent_streak
       set_seq_buffer set_detected_glosses add_detected_gloss print
       record_classified].
    rewrite length_app. cbn [length].
    destruct ((Config.END_STREAK <=? _) || _); cbn [andb].
    + destruct (Config.MIN_SIGN_FRAMES <=? _).
      * cbn [map]. rewrite length_app. cbn [length].
        destruct (infer (buf ++ [l])) as [gloss conf]. cbn [fst snd].
        destruct (PrimFloat.leb Config.MIN_CONFIDENCE conf); cbn; auto.
      * cbn. rewrite !app_nil_r. auto.
    + cbn. rewrite !app_nil_r. auto.
Qed.

(** One frame keeps two windows in the same session, and makes them
    classify the same buffers. *)
Lemma step_same_session (w1 w2 : window) l p :
  same_session w1 w2 ->
  same_session (step w1 l p) (step w2 l p)
  /\ step_emits w1 l p = step_emits w2 l p.
Proof.
  intros (Es & Ep & Ea & Eb & Eg).
  assert (Hemits : step_emits w1 l p = step_emits w2 l p).
  { unfold step_emits, gesture_ends. rewrite Es, Ea, Eb. reflexivity. }
  split; [| exact Hemits].
  destruct (step_effects w1 l p) as (_ & Hg1 & _).
  destruct (step_effects w2 l p) as (_ & Hg2 & _).
  assert (Hview :
    state (step w1 l p) = state (step w2 l p)
    /\ present_streak (step w1 l p) = present_streak (step w2 l p)
    /\ absent_streak (step w1 l p) = absent_streak (step w2 l p)
    /\ seq_buffer (step w1 l p) = seq_buffer (step w2 l p)).
  { destruct (state w1) eqn:E.
    - rewrite (step_idle Landmarks infer w1 l p E).
      rewrite (step_idle Landmarks infer w2 l p (eq_sym Es)).
      cbv zeta. rewrite Ep, Eb.
      destruct (Config.START_STREAK <=? _); repeat split.
    - pose proof (step_recording Landmarks infer w1 l p E) as H1.
      pose proof (step_recording Landmarks infer w2 l p (eq_sym Es)) as H2.
      cbv zeta in H1, H2. unfold gesture_ends in H1, H2.
      rewrite <- Ep, <- Ea, <- Eb in H2.
      destruct ((Config.END_STREAK <=? _) || _);
        destruct H1 as (-> & -> & -> & -> & _);
        destruct H2 as (-> & -> & -> & -> & _); repeat split. }
  destruct Hview as (Hs & Hp & Ha & Hb).
  repeat split; auto. rewrite Hg1, Hg2, Eg, Hemits. reflexivity.
Qed.

Lemma feed_same_session frames :
  forall w1 w2 : window,
    same_session w1 w2 ->
    same_session (feed infer w1 frames) (feed infer w2 frames)
    /\ exists emitted,
         classified (feed infer w1 frames) = classified w1 ++ emitted
         /\ classified (feed infer w2 frames) = classified w2 ++ emitted
         /\ stdout (feed infer w1 frames)
            = stdout w1 ++ map (line_for infer) emitted
         /\ stdout (feed infer w2 frames)
            = stdout w2 ++ map (line_for infer) emitted
         /\ detected_glosses (feed infer w1 frames)
            = detected_glosses w1
              ++ map (fun buf => fst (infer buf)) emitted.
Proof.
  induction frames as [| f frames IH]; intros w1 w2 Hs.
  - split; [exact Hs |]. exists []. cbn. rewrite !app_nil_r. auto.
  - cbn [feed fold_left].
    destruct (step_same_session w1 w2 (fst f) (snd f) Hs) as [Hs' He].
    destruct (step_effects w1 (fst f) (snd f)) as (Hc1 & Hg1 & Ho1).
    destruct (step_effects w2 (fst f) (snd f)) as (Hc2 & _ & Ho2).
    destruct (IH _ _ Hs') as (Hs'' & emitted & H1 & H2 & H3 & H4 & H5).
    split; [exact Hs'' |].
    exists (step_emits w1 (fst f) (snd f) ++ emitted).
    fold (feed infer (step w1 (fst f) (snd f)) frames).
    fold (feed infer (step w2 (fst f) (snd f)) frames).
    rewrite H1, H2, H3, H4, H5, Hc1, Hc2, Hg1, Ho1, Ho2, <- He.
    rewrite !map_app, <- !app_assoc. auto.
Qed.

Lemma same_session_refl (w : window) : same_session w w.
Proof. repeat split. Qed.

(** The comparison of a positive finite double with any double: [x >= y]
    is false when [x < y] and when [x] is not a number, and only then. *)
Lemma SFcompare_finite_positive (m0 : positive) (e0 : Z)
    (x : SpecFloat.spec_float) :
  match SpecFloat.SFcompare (SpecFloat.S754_finite false m0 e0) x with
  | Some Eq | Some Lt => true
  | _ => false
  end = false
  <-> match SpecFloat.SFcompare x (SpecFloat.S754_finite false m0 e0) with
      | Some Lt => true
      | _ => false
      end = true
      \/ negb match SpecFloat.SFcompare x x with
              | Some Eq => true
              | _ => false
              end = true.
Proof.
  destruct x as [s | s | | s m e]; try destruct s;
    cbn [SpecFloat.SFcompare negb]; try (intuition congruence).
  rewrite (Z.compare_refl e), (Pos.compare_cont_refl m Eq). cbn [negb].
  rewrite (Z.compare_antisym e e0).
  pose proof (Pos.compare_cont_antisym m m0 Eq) as Hm. cbn [CompOpp] in Hm.
  rewrite <- Hm.
  destruct (e ?= e0)%Z; cbn [CompOpp]; try (intuition congruence).
  destruct (Pos.compare_cont Eq m m0); cbn [CompOpp]; intuition congruence.
Qed.

Lemma MIN_CONFIDENCE_finite :
  FloatOps.Prim2SF Config.MIN_CONFIDENCE
  = SpecFloat.S754_finite false 7205759403792794 (-54).
Proof. vm_compute. reflexivity. Qed.

(** When the test [conf >= Config.MIN_CONFIDENCE] is false. *)
Lemma low_confidence (conf : float) :
  negb (PrimFloat.leb Config.MIN_CONFIDENCE conf) = true
  <-> PrimFloat.ltb conf Config.MIN_CONFIDENCE = true
      \/ PrimFloat.is_nan conf = true.
Proof.
  rewrite negb_true_iff.
  rewrite FloatAxioms.leb_spec, FloatAxioms.ltb_spec.
  unfold PrimFloat.is_nan. rewrite FloatAxioms.eqb_spec.
  rewrite MIN_CONFIDENCE_finite.
  apply SFcompare_finite_positive.
Qed.

(** X3.  Over a session the ledger and the log follow the classified
    buffers one for one: the ledger holds the classifier's label of each
    buffer, in order, and the log one line per buffer, with the label, the
    confidence, the frame count of the buffer and the [[LOW]] tag; the tag
    is there exactly when the test [conf >= Config.MIN_CONFIDENCE] of the
    code is false, that is, when the confidence is below MIN_CONFIDENCE or
    is not a number. *)
Theorem ledger_follows_classified (w : window)
    (frames : list (Landmarks * bool)) :
  exists emitted,
    classified (feed infer (reset w) frames) = classified w ++ emitted
    /\ detected_glosses (feed infer (reset w) frames)
       = map (fun buf => fst (infer buf)) emitted
    /\ stdout (feed infer (reset w) frames)
       = stdout w
         ++ map (fun buf =>
                   mkLogLine (fst (infer buf)) (snd (infer buf)) (length buf)
                     (negb (PrimFloat.leb Config.MIN_CONFIDENCE
                              (snd (infer buf)))))
              emitted
    /\ length (detected_glosses (feed infer (reset w) frames))
       = length emitted
    /\ (forall conf : float,
          negb (PrimFloat.leb Config.MIN_CONFIDENCE conf) = true
          <-> PrimFloat.ltb conf Config.MIN_CONFIDENCE = true
              \/ PrimFloat.is_nan conf = true).
Proof.
  destruct (feed_same_session frames (reset w) (reset w)
              (same_session_refl _))
    as (_ & emitted & Hc & _ & Ho & _ & Hg).
  exists emitted. rewrite Hg.
  split; [exact Hc |]. split; [reflexivity |]. split; [exact Ho |].
  split; [cbn; apply length_map | exact low_confidence].
Qed.

(** X4.  A session depends on its own frames only: after the reset of
    [start_camera] the window goes through the same states, buffers and
    ledger as a window that has never run, and classifies the same
    buffers; what an earlier session left in the buffer is never
    classified. *)
Theorem sessions_are_independent (w : window)
    (frames : list (Landmarks * bool)) :
  state (feed infer (reset w) frames) = state (feed infer (fresh _) frames)
  /\ seq_buffer (feed infer (reset w) frames)
     = seq_buffer (feed infer (fresh _) frames)
  /\ detected_glosses (feed infer (reset w) frames)
     = detected_glosses (feed infer (fresh _) frames)
  /\ classified (feed infer (reset w) frames)
     = classified w ++ classified (feed infer (fresh _) frames)
  /\ stdout (feed infer (reset w) frames)
     = stdout w ++ stdout (feed infer (fresh _) frames).
Proof.
  assert (Hs : same_session (reset w) (fresh Landmarks)) by (repeat split).
  destruct (feed_same_session frames _ _ Hs)
    as ((Es & _ & _ & Eb & Eg) & emitted & Hc1 & Hc2 & Ho1 & Ho2 & _).
  cbn [classified stdout fresh app] in Hc2, Ho2.
  rewrite Hc1, Hc2, Ho1, Ho2. repeat split; auto.
Qed.

(** A sequence that starts with [s] present frames and has no run of [k]
    has [s < k], and goes on without a run of [k] after one more frame. *)
Lemma no_run_bound k s rest :
  has_run k (repeat true s ++ rest) = false -> s < k.
Proof.
  intros H. destruct (Nat.lt_ge_cases s k) as [Hlt | Hge]; [exact Hlt |].
  exfalso. replace s with ((s - k) + k) in H by lia.
  rewrite repeat_app, <- app_assoc in H.
  apply has_run_drop_prefix in H. rewrite has_run_repeat in H. discriminate.
Qed.

Lemma no_run_next k s (b : bool) rest :
  has_run k (repeat true s ++ b :: rest) = false ->
  has_run k (repeat true (if b then s + 1 else 0) ++ rest) = false.
Proof.
  intros H. destruct b.
  - rewrite repeat_app, <- app_assoc. exact H.
  - apply has_run_drop_prefix in H. exact (has_run_tail _ _ _ H).
Qed.

(** A recording that goes on: see X5. *)
Lemma feed_recording_quiet (frames : list (Landmarks * bool)) :
  forall w : window,
    state w = RECORDING ->
    has_run Config.END_STREAK
      (repeat true (absent_streak w) ++ absences frames) = false ->
    length (seq_buffer w) + length frames < Config.MAX_SIGN_FRAMES ->
    state (feed infer w frames) = RECORDING
    /\ seq_buffer (feed infer w frames) = seq_buffer w ++ map fst frames
    /\ absent_streak (feed infer w frames)
       = absent_after (absent_streak w) frames
    /\ classified (feed infer w frames) = classified w
    /\ detected_glosses (feed infer w frames) = detected_glosses w.
Proof.
  induction frames as [| [l p] frames IH]; intros w E Hrun Hlen.
  - cbn. rewrite app_nil_r. auto.
  - cbn [feed fold_left fst snd]. fold (feed infer (step w l p) frames).
    cbn [absences map snd] in Hrun.
    pose proof (no_run_next _ _ _ _ Hrun) as Hnext.
    pose proof (no_run_bound _ _ _ Hnext) as Hbound.
    cbn [length] in Hlen.
    pose proof (step_recording Landmarks infer w l p E) as H.
    destruct (step_effects w l p) as (_ & Hg & _).
    cbv zeta in H. unfold step_emits in Hg. rewrite E in Hg.
    assert (Hends : gesture_ends w p = false).
    { unfold gesture_ends. apply orb_false_iff. split.
      - apply Nat.leb_gt. exact Hbound.
      - apply Nat.leb_gt. lia. }
    rewrite Hends in H, Hg. cbn in Hg. rewrite app_nil_r in Hg.
    destruct H as (Hs & _ & Ha & Hb & Hc).
    destruct (IH (step w l p) Hs) as (Hs' & Hb' & Ha' & Hc' & Hg').
    + rewrite Ha. exact Hnext.
    + rewrite Hb, length_app. cbn. lia.
    + rewrite Hs', Hb', Ha', Hc', Hg', Hb, Ha, Hc, Hg.
      rewrite <- app_assoc. cbn. auto.
Qed.


(** X5.  A recording goes on, and keeps every frame it is fed, present or
    absent, for as long as the absent frames do not come END_STREAK in a
    row and the buffer stays below MAX_SIGN_FRAMES; nothing is classified
    meanwhile. *)
Theorem recording_continues (frames : list (Landmarks * bool)) :
  forall w : window,
    state w = RECORDING ->
    has_run Config.END_STREAK
      (repeat true (absent_streak w) ++ absences frames) = false ->
    length (seq_buffer w) + length frames < Config.MAX_SIGN_FRAMES ->
    state (feed infer w frames) = RECORDING
    /\ seq_buffer (feed infer w frames) = seq_buffer w ++ map fst frames
    /\ absent_streak (feed infer w frames)
       = absent_after (absent_streak w) frames
    /\ classified (feed infer w frames) = classified w
    /\ detected_glosses (feed infer w frames) = detected_glosses w.
Proof. exact (feed_recording_quiet frames). Qed.

(** The START_STREAK present frames that start a recording, from an IDLE
    window whose present streak is 0. *)
Lemma feed_trigger (w : window) (trigger : list (Landmarks * bool)) :
  state w = IDLE -> present_streak w = 0 ->
  map snd trigger = repeat true Config.START_STREAK ->
  feed infer w trigger
  = mkWindow RECORDING 0 0 [] (detected_glosses w) (stdout w) (classified w).
Proof.
  destruct w as [st ps ab buf glosses out cls]. cbn [state present_streak].
  intros -> -> H. cbn in H.
  do 4 (destruct trigger as [| [? ?] trigger]; [discriminate H |];
        cbn [map snd] in H; injection H as -> H).
  destruct trigger; [reflexivity | discriminate H].
Qed.

Lemma has_run_repeat_short k s : s < k -> has_run k (repeat true s) = false.
Proof.
  intros Hlt. destruct (has_run k (repeat true s)) eqn:E; [| reflexivity].
  apply has_run_iff in E. destruct E as (before & rest & E).
  apply (f_equal (@length bool)) in E.
  rewrite !length_app, !repeat_length in E. lia.
Qed.

Lemma absent_after_all_absent (frames : list (Landmarks * bool)) :
  forall a,
    Forall (fun f => snd f = false) frames ->
    absent_after a frames = a + length frames
    /\ absences frames = repeat true (length frames).
Proof.
  induction frames as [| [l p] frames IH]; intros a H.
  - cbn. auto.
  - inversion H as [| ? ? Hp Hrest]; subst. cbn in Hp. subst p.
    destruct (IH (a + 1) Hrest) as [Ha Hb].
    unfold absent_after in *. cbn [fold_left snd negb absences map length].
    fold (absences frames). rewrite Ha, Hb. split; [lia | reflexivity].
Qed.

(** The frame that ends a recording. *)
Lemma step_ends_gesture (w : window) l p :
  state w = RECORDING ->
  gesture_ends w p = true ->
  state (step w l p) = IDLE
  /\ present_streak (step w l p) = 0
  /\ seq_buffer (step w l p) = []
  /\ classified (step w l p)
     = classified w
       ++ (if Config.MIN_SIGN_FRAMES <=? length (seq_buffer w) + 1
           then [seq_buffer w ++ [l]] else [])
  /\ detected_glosses (step w l p)
     = detected_glosses w
       ++ (if Config.MIN_SIGN_FRAMES <=? length (seq_buffer w) + 1
           then [fst (infer (seq_buffer w ++ [l]))] else []).
Proof.
  intros E Hends.
  pose proof (step_recording Landmarks infer w l p E) as H.
  destruct (step_effects w l p) as (_ & Hg & _).
  cbv zeta in H. unfold step_emits in Hg. rewrite E in Hg.
  rewrite Hends in H, Hg. cbn [andb] in Hg.
  rewrite length_app in H, Hg. cbn [length] in H, Hg.
  destruct H as (Hs & Hp & _ & Hb & Hc).
  rewrite Hg, Hc. destruct (Config.MIN_SIGN_FRAMES <=? _); auto.
Qed.

(** END_STREAK absent frames, or as many as are missing to END_STREAK, end
    a recording. *)
Lemma feed_closing (closing : list (Landmarks * bool)) (w : window) :
  state w = RECORDING ->
  Forall (fun f => snd f = false) closing ->
  absent_streak w + length closing = Config.END_STREAK ->
  closing <> [] ->
  length (seq_buffer w) + length closing <= Config.MAX_SIGN_FRAMES ->
  let buf := seq_buffer w ++ map fst closing in
  state (feed infer w closing) = IDLE
  /\ present_streak (feed infer w closing) = 0
  /\ seq_buffer (feed infer w closing) = []
  /\ classified (feed infer w closing)
     = classified w
       ++ (if Config.MIN_SIGN_FRAMES <=? length buf then [buf] else [])
  /\ detected_glosses (feed infer w closing)
     = detected_glosses w
       ++ (if Config.MIN_SIGN_FRAMES <=? length buf
           then [fst (infer buf)] else []).
Proof.
  intros E Habs Hsum Hne Hlen.
  destruct (exists_last Hne) as (init & [l p] & ->).
  apply Forall_app in Habs. destruct Habs as [Hinit Hlast].
  inversion Hlast as [| ? ? Hp _]; subst. cbn in Hp. subst p.
  rewrite length_app in Hsum, Hlen. cbn [length] in Hsum, Hlen.
  destruct (absent_after_all_absent init (absent_streak w) Hinit)
    as [Hafter Habsences].
  destruct (feed_recording_quiet init w E) as (Hs & Hb & Ha & Hc & Hg).
  { rewrite Habsences, <- repeat_app. apply has_run_repeat_short. lia. }
  { lia. }
  unfold feed. rewrite fold_left_app. cbn [fold_left fst snd].
  fold (feed infer w init).
  assert (Hends : gesture_ends (feed infer w init) false = true).
  { unfold gesture_ends. cbn [negb]. rewrite Ha, Hafter.
    apply orb_true_iff. left. apply Nat.leb_le. lia. }
  destruct (step_ends_gesture (feed infer w init) l false Hs Hends)
    as (Hs' & Hp' & Hb' & Hc' & Hg').
  cbv zeta. rewrite Hs', Hp', Hb', Hc', Hg', Hb, Hc, Hg.
  rewrite map_app, app_assoc, !length_app, !length_map. cbn [map fst length].
  rewrite <- Nat.add_assoc. auto.
Qed.

Lemma absent_after_last_present (body : list (Landmarks * bool)) a :
  last (map snd body) true = true ->
  body <> [] ->
  absent_after a body = 0.
Proof.
  intros Hlast Hne.
  destruct (exists_last Hne) as (init & [l p] & ->).
  rewrite map_app in Hlast. cbn [map snd] in Hlast.
  rewrite last_last in Hlast. subst p.
  unfold absent_after. rewrite fold_left_app. reflexivity.
Qed.

(** X6.  A whole gesture.  After a reset: START_STREAK present frames,
    then a body in which the absent frames never come END_STREAK in a row
    and which does not end on an absent frame, then END_STREAK absent
    frames, all within MAX_SIGN_FRAMES.  The frames that started the
    recording are not buffered; the body and the END_STREAK closing frames
    are; the buffer is classified when it has MIN_SIGN_FRAMES or more and
    dropped otherwise; and the state machine is back in IDLE. *)
Theorem gesture_from_start_to_end (w : window)
    (trigger body closing : list (Landmarks * bool)) :
  map snd trigger = repeat true Config.START_STREAK ->
  has_run Config.END_STREAK (absences body) = false ->
  last (map snd body) true = true ->
  map snd closing = repeat false Config.END_STREAK ->
  length body + Config.END_STREAK <= Config.MAX_SIGN_FRAMES ->
  let w' := feed infer (reset w) (trigger ++ body ++ closing) in
  let buf := map fst (body ++ closing) in
  state w' = IDLE
  /\ seq_buffer w' = []
  /\ classified w'
     = classified w
       ++ (if Config.MIN_SIGN_FRAMES <=? length body + Config.END_STREAK
           then [buf] else [])
  /\ detected_glosses w'
     = (if Config.MIN_SIGN_FRAMES <=? length body + Config.END_STREAK
        then [fst (infer buf)] else []).
Proof.
  intros Htrigger Hbody Hlast Hclosing Hlen. cbv zeta.
  rewrite !feed_app.
  rewrite (feed_trigger (reset w) trigger eq_refl eq_refl Htrigger).
  cbn [detected_glosses stdout classified reset set_detected_glosses
       set_seq_buffer set_absent_streak set_present_streak set_state].
  set (w0 := mkWindow RECORDING 0 0 [] [] (stdout w) (classified w)).
  assert (Hlenc : length closing = Config.END_STREAK).
  { rewrite <- (length_map snd), Hclosing. apply repeat_length. }
  assert (Habsent : Forall (fun f => snd f = false) closing).
  { apply Forall_forall. intros f Hf.
    apply (in_map snd) in Hf. rewrite Hclosing in Hf.
    apply repeat_spec in Hf. exact Hf. }
  destruct (feed_recording_quiet body w0 eq_refl) as (Hs & Hb & Ha & Hc & Hg).
  { exact Hbody. }
  { cbn. unfold Config.END_STREAK in Hlen. lia. }
  assert (Ha0 : absent_streak (feed infer w0 body) = 0).
  { rewrite Ha. destruct body as [| f body]; [reflexivity |].
    apply absent_after_last_present; [exact Hlast | discriminate]. }
  destruct (feed_closing closing (feed infer w0 body) Hs Habsent)
    as (Hs' & _ & Hb' & Hc' & Hg').
  { rewrite Ha0, Hlenc. reflexivity. }
  { intros ->. discriminate Hlenc. }
  { rewrite Hb, length_app, length_map, Hlenc. cbn. exact Hlen. }
  cbv zeta in Hc', Hg'.
  rewrite Hb in Hc', Hg'. cbn [app seq_buffer w0] in Hc', Hg'.
  rewrite <- map_app in Hc', Hg'.
  rewrite length_map, length_app, Hlenc in Hc', Hg'.
  rewrite Hc, Hg in *. cbn [classified detected_glosses w0 app] in *.
  auto.
Qed.

Lemma all_present_map (frames : list (Landmarks * bool)) :
  Forall (fun f => snd f = true) frames ->
  map snd frames = repeat true (length frames)
  /\ absences frames = repeat false (length frames).
Proof.
  induction 1 as [| [l p] frames Hp _ [IH1 IH2]]; [auto |].
  cbn in Hp. subst p. unfold absences in *. cbn. rewrite IH1, IH2. auto.
Qed.

Lemma has_run_all_false k n : 0 < k -> has_run k (repeat false n) = false.
Proof.
  intros Hk. induction n as [| n IH]; cbn [repeat has_run].
  - destruct k; [lia | reflexivity].
  - rewrite IH. destruct k; [lia | reflexivity].
Qed.

(** Present frames that fill the buffer up to MAX_SIGN_FRAMES end the
    recording with the whole buffer classified. *)
Lemma feed_cap (frames : list (Landmarks * bool)) (w : window) :
  state w = RECORDING ->
  absent_streak w = 0 ->
  Forall (fun f => snd f = true) frames ->
  frames <> [] ->
  length (seq_buffer w) + length frames = Config.MAX_SIGN_FRAMES ->
  state (feed infer w frames) = IDLE
  /\ present_streak (feed infer w frames) = 0
  /\ classified (feed infer w frames)
     = classified w ++ [seq_buffer w ++ map fst frames].
Proof.
  intros E Ha0 Hall Hne Hlen.
  destruct (exists_last Hne) as (init & [l p] & ->).
  apply Forall_app in Hall. destruct Hall as [Hinit _].
  rewrite length_app in Hlen. cbn [length] in Hlen.
  destruct (feed_recording_quiet init w E) as (Hs & Hb & _ & Hc & _).
  { rewrite Ha0. cbn [repeat app].
    rewrite (proj2 (all_present_map init Hinit)).
    apply has_run_all_false. unfold Config.END_STREAK. lia. }
  { lia. }
  unfold feed. rewrite fold_left_app. cbn [fold_left fst snd].
  fold (feed infer w init).
  assert (Hends : gesture_ends (feed infer w init) p = true).
  { unfold gesture_ends. rewrite Hb, length_app, length_map.
    apply orb_true_iff. right. apply Nat.leb_le. lia. }
  destruct (step_ends_gesture (feed infer w init) l p Hs Hends)
    as (Hs' & Hp' & _ & Hc' & _).
  rewrite Hs', Hp', Hc', Hb, Hc, length_app, length_map.
  replace (Config.MIN_SIGN_FRAMES <=? length (seq_buffer w) + length init + 1)
    with true.
  - rewrite map_app, app_assoc. auto.
  - symmetry. apply Nat.leb_le.
    unfold Config.MIN_SIGN_FRAMES, Config.MAX_SIGN_FRAMES in *. lia.
Qed.

(** Fewer present frames than START_STREAK + MAX_SIGN_FRAMES, from an IDLE
    window whose present streak is 0: nothing is classified. *)
Lemma feed_present_short (frames : list (Landmarks * bool)) (w : window) :
  state w = IDLE -> present_streak w = 0 ->
  Forall (fun f => snd f = true) frames ->
  length frames < Config.START_STREAK + Config.MAX_SIGN_FRAMES ->
  classified (feed infer w frames) = classified w.
Proof.
  intros E Hp0 Hall Hlen.
  destruct (Nat.lt_ge_cases (length frames) Config.START_STREAK)
    as [Hshort | Hlong].
  - apply (feed_idle_no_run Landmarks infer frames w E).
    rewrite Hp0. cbn [repeat app].
    rewrite (proj1 (all_present_map frames Hall)).
    apply has_run_repeat_short, Hshort.
  - rewrite <- (firstn_skipn Config.START_STREAK frames) in Hall |- *.
    apply Forall_app in Hall. destruct Hall as [Hhead Htail].
    assert (Hlh : length (firstn Config.START_STREAK frames)
                  = Config.START_STREAK).
    { apply firstn_length_le. exact Hlong. }
    rewrite feed_app, (feed_trigger w _ E Hp0).
    + match goal with |- classified (feed infer ?w0 _) = _ =>
        destruct (feed_recording_quiet
                    (skipn Config.START_STREAK frames) w0 eq_refl)
          as (_ & _ & _ & Hc & _) end.
      * cbn [absent_streak repeat app].
        rewrite (proj2 (all_present_map _ Htail)).
        apply has_run_all_false. unfold Config.END_STREAK. lia.
      * cbn [seq_buffer length]. rewrite length_skipn. lia.
      * exact Hc.
    + rewrite (proj1 (all_present_map _ Hhead)), Hlh. reflexivity.
Qed.

(** START_STREAK + MAX_SIGN_FRAMES present frames, from an IDLE window
    whose present streak is 0: one buffer of MAX_SIGN_FRAMES frames is
    classified and the window is IDLE with a present streak of 0 again. *)
Lemma feed_present_period (frames : list (Landmarks * bool)) (w : window) :
  state w = IDLE -> present_streak w = 0 ->
  Forall (fun f => snd f = true) frames ->
  length frames = Config.START_STREAK + Config.MAX_SIGN_FRAMES ->
  state (feed infer w frames) = IDLE
  /\ present_streak (feed infer w frames) = 0
  /\ classified (feed infer w frames)
     = classified w ++ [map fst (skipn Config.START_STREAK frames)].
Proof.
  intros E Hp0 Hall Hlen.
  rewrite <- (firstn_skipn Config.START_STREAK frames) in Hall.
  rewrite <- (firstn_skipn Config.START_STREAK frames) at 1 2 3.
  apply Forall_app in Hall. destruct Hall as [Hhead Htail].
  assert (Hlh : length (firstn Config.START_STREAK frames)
                = Config.START_STREAK).
  { apply firstn_length_le. lia. }
  rewrite feed_app, (feed_trigger w _ E Hp0).
  - match goal with |- state (feed infer ?w0 _) = _ /\ _ =>
      destruct (feed_cap (skipn Config.START_STREAK frames) w0
                  eq_refl eq_refl Htail) as (Hs & Hp & Hc) end.
    + intros Hnil. apply (f_equal (@length _)) in Hnil.
      rewrite length_skipn, Hlen in Hnil.
      unfold Config.MAX_SIGN_FRAMES in Hnil. cbn in Hnil. lia.
    + cbn [seq_buffer length]. rewrite length_skipn. lia.
    + auto.
  - rewrite (proj1 (all_present_map _ Hhead)), Hlh. reflexivity.
Qed.

Lemma feed_present_count (q : nat) :
  forall (frames : list (Landmarks * bool)) (w : window),
    state w = IDLE -> present_streak w = 0 ->
    Forall (fun f => snd f = true) frames ->
    q * (Config.START_STREAK + Config.MAX_SIGN_FRAMES) <= length frames ->
    length frames < S q * (Config.START_STREAK + Config.MAX_SIGN_FRAMES) ->
    exists emitted,
      classified (feed infer w frames) = classified w ++ emitted
      /\ length emitted = q
      /\ Forall (fun buf => length buf = Config.MAX_SIGN_FRAMES) emitted.
Proof.
  set (P := Config.START_STREAK + Config.MAX_SIGN_FRAMES).
  induction q as [| q IH]; intros frames w E Hp0 Hall Hlo Hhi.
  - exists []. rewrite app_nil_r. split; [| auto].
    apply feed_present_short; auto; fold P; lia.
  - rewrite <- (firstn_skipn P frames) in Hall |- *.
    apply Forall_app in Hall. destruct Hall as [Hhead Htail].
    assert (Hlh : length (firstn P frames) = P).
    { apply firstn_length_le. lia. }
    destruct (feed_present_period (firstn P frames) w E Hp0 Hhead Hlh)
      as (Hs & Hp & Hc).
    rewrite feed_app.
    destruct (IH (skipn P frames) (feed infer w (firstn P frames))
                Hs Hp Htail) as (emitted & Hc' & Hn & Hlens).
    + rewrite length_skipn. lia.
    + rewrite length_skipn. lia.
    + eexists. rewrite Hc', Hc, <- app_assoc. split; [reflexivity |].
      split; [cbn; rewrite Hn; reflexivity |].
      constructor; [| exact Hlens].
      rewrite length_map, length_skipn, Hlh. unfold P. lia.
Qed.

(** X7.  Hands that never leave the picture: of a stream of present
    frames, every START_STREAK + MAX_SIGN_FRAMES frames give one classified
    buffer of exactly MAX_SIGN_FRAMES frames, and the frames left over give
    none. *)
Theorem continuous_presence_is_cut_at_max (w : window)
    (frames : list (Landmarks * bool)) :
  Forall (fun f => snd f = true) frames ->
  exists emitted,
    classified (feed infer (reset w) frames) = classified w ++ emitted
    /\ length emitted
       = length frames / (Config.START_STREAK + Config.MAX_SIGN_FRAMES)
    /\ Forall (fun buf => length buf = Config.MAX_SIGN_FRAMES) emitted.
Proof.
  intros Hall.
  set (P := Config.START_STREAK + Config.MAX_SIGN_FRAMES).
  assert (HP : P <> 0) by (unfold P, Config.START_STREAK; lia).
  apply (feed_present_count (length frames / P) frames (reset w)
           eq_refl eq_refl Hall).
  - fold P. rewrite Nat.mul_comm. apply Nat.Div0.mul_div_le.
  - fold P. rewrite Nat.mul_comm. apply Nat.mul_succ_div_gt. exact HP.
Qed.

(** After frames without a run of START_STREAK that end on an absent
    frame, the window is IDLE with a present streak of 0. *)
Lemma feed_idle_rest (pre : list (Landmarks * bool)) (w : window) :
  state w = IDLE -> present_streak w = 0 ->
  has_run Config.START_STREAK (map snd pre) = false ->
  last (map snd pre) false = false ->
  state (feed infer w pre) = IDLE
  /\ present_streak (feed infer w pre) = 0
  /\ classified (feed infer w pre) = classified w
  /\ detected_glosses (feed infer w pre) = detected_glosses w
  /\ stdout (feed infer w pre) = stdout w.
Proof.
  intros E Hp0 Hrun Hlast.
  destruct (feed_idle_no_run Landmarks infer pre w E)
    as (Hs & Hc & Hg & Ho).
  { rewrite Hp0. exact Hrun. }
  split; [exact Hs |]. split; [| auto].
  destruct pre as [| f pre]; [exact Hp0 |].
  assert (Hne : f :: pre <> []) by discriminate.
  destruct (exists_last Hne) as (init & [l p] & Epre).
  rewrite Epre in *. clear Epre Hne.
  rewrite map_app in Hlast, Hrun. cbn [map snd] in Hlast, Hrun.
  rewrite last_last in Hlast. subst p.
  destruct (feed_idle_no_run Landmarks infer init w E) as (Hs' & _).
  { rewrite Hp0. cbn [repeat app].
    pose proof (has_run_firstn _ (length (map snd init)) _ Hrun) as Hinit.
    rewrite firstn_app, firstn_all, Nat.sub_diag in Hinit.
    cbn [firstn] in Hinit. rewrite app_nil_r in Hinit. exact Hinit. }
  unfold feed. rewrite fold_left_app. cbn [fold_left fst snd].
  fold (feed infer w init).
  rewrite (step_idle Landmarks infer _ l false Hs'). cbv zeta.
  destruct (Config.START_STREAK <=? 0) eqn:E0; [| reflexivity].
  discriminate E0.
Qed.

(** X18.  How a recording starts.  After a reset, frames without
    START_STREAK present frames in a row that end on an absent frame (or no
    frames), and then START_STREAK present frames: the window is RECORDING
    with an empty buffer and both streaks at 0, none of the frames is in
    the buffer, and nothing has been classified or printed. *)
Theorem recording_starts_after_start_streak (w : window)
    (pre trigger : list (Landmarks * bool)) :
  has_run Config.START_STREAK (map snd pre) = false ->
  last (map snd pre) false = false ->
  map snd trigger = repeat true Config.START_STREAK ->
  feed infer (reset w) (pre ++ trigger)
  = mkWindow RECORDING 0 0 [] [] (stdout w) (classified w).
Proof.
  intros Hrun Hlast Htrigger.
  destruct (feed_idle_rest pre (reset w) eq_refl eq_refl Hrun Hlast)
    as (Hs & Hp & Hc & Hg & Ho).
  rewrite feed_app, (feed_trigger _ trigger Hs Hp Htrigger), Hc, Hg, Ho.
  reflexivity.
Qed.

End Runs.

(** *** The ledger *)

Section LedgerFacts.

Import DeafModeSession.
Variable Landmarks : Type.
Variable infer : list Landmarks -> str * float.

Abbreviation window := (DeafModeWindow Landmarks).

(** X8.  The ledger under [delete_last_gloss] and [clear_glosses]: deleting
    from an empty ledger changes nothing and prints nothing (so also right
    after a clear); deleting after [add_detected_gloss] gives the window
    back and names the gloss that was added; deleting after
    [classify_sequence] restores the ledger, so a gloss recognized with
    any confidence can be taken back; and a deletion leaves the state
    machine, its buffer and its streaks alone. *)
Theorem delete_last_gloss_undoes_append (w : window) (gloss : str) :
  (detected_glosses w = [] -> delete_last_gloss w = (w, None))
  /\ delete_last_gloss (clear_glosses w) = (clear_glosses w, None)
  /\ delete_last_gloss (add_detected_gloss w gloss) = (w, Some gloss)
  /\ detected_glosses (fst (delete_last_gloss (classify_sequence infer w)))
     = detected_glosses w
  /\ snd (delete_last_gloss (classify_sequence infer w))
     = Some (fst (infer (seq_buffer w)))
  /\ (state (fst (delete_last_gloss w)) = state w
      /\ present_streak (fst (delete_last_gloss w)) = present_streak w
      /\ absent_streak (fst (delete_last_gloss w)) = absent_streak w
      /\ seq_buffer (fst (delete_last_gloss w)) = seq_buffer w
      /\ detected_glosses (fst (delete_last_gloss w))
         = removelast (detected_glosses w)).
Proof.
  assert (Hadd : forall (v : window) g,
            delete_last_gloss (add_detected_gloss v g) = (v, Some g)).
  { intros [st ps ab buf glosses out cls] g.
    unfold delete_last_gloss, add_detected_gloss, set_detected_glosses.
    cbn [detected_glosses state present_streak absent_streak seq_buffer
         stdout classified].
    destruct (glosses ++ [g]) eqn:E.
    - destruct glosses; discriminate E.
    - rewrite <- E, removelast_last, last_last. reflexivity. }
  split; [| split; [| split; [| split; [| split]]]].
  - unfold delete_last_gloss. intros ->. reflexivity.
  - reflexivity.
  - apply Hadd.
  - unfold classify_sequence.
    destruct (infer (seq_buffer (record_classified w))) as [g conf].
    destruct (PrimFloat.leb Config.MIN_CONFIDENCE conf);
      rewrite Hadd; reflexivity.
  - unfold classify_sequence. cbn [record_classified seq_buffer].
    destruct (infer (seq_buffer w)) as [g conf]. cbn [fst].
    destruct (PrimFloat.leb Config.MIN_CONFIDENCE conf);
      rewrite Hadd; reflexivity.
  - unfold delete_last_gloss.
    destruct (detected_glosses w) eqn:E; cbn; rewrite ?E; repeat split.
Qed.

End LedgerFacts.

(** *** Concrete runs *)

Lemma frames_from_present from n :
  Forall (fun f : nat * bool => snd f = true) (frames_from from n true).
Proof.
  unfold frames_from. apply Forall_forall. intros f Hf.
  apply in_map_iff in Hf. destruct Hf as (i & <- & _). reflexivity.
Qed.

Lemma recording_continues_witness :
  state (feed always_hola (mkWindow RECORDING 0 0 [] [] [] [])
           (frames_from 0 3 true ++ frames_from 3 5 false
            ++ frames_from 8 2 true)) = RECORDING
  /\ seq_buffer (feed always_hola (mkWindow RECORDING 0 0 [] [] [] [])
                   (frames_from 0 3 true ++ frames_from 3 5 false
                    ++ frames_from 8 2 true))
     = [] ++ map fst (frames_from 0 3 true ++ frames_from 3 5 false
                      ++ frames_from 8 2 true).
Proof.
  pose proof (recording_continues nat always_hola
                (frames_from 0 3 true ++ frames_from 3 5 false
                 ++ frames_from 8 2 true)
                (mkWindow RECORDING 0 0 [] [] [] [])) as H.
  destruct H as (Hs & Hb & _).
  - reflexivity.
  - reflexivity.
  - cbn. unfold Config.MAX_SIGN_FRAMES. lia.
  - split; [exact Hs | exact Hb].
Defined.

Lemma gesture_from_start_to_end_witness :
  classified
    (feed always_hola (reset (fresh nat))
       (frames_from 0 4 true
        ++ (frames_from 4 5 true ++ frames_from 9 3 false
            ++ frames_from 12 4 true)
        ++ frames_from 16 6 false))
  = [seq 4 18].
Proof.
  pose proof (gesture_from_start_to_end nat always_hola (fresh nat)
                (frames_from 0 4 true)
                (frames_from 4 5 true ++ frames_from 9 3 false
                 ++ frames_from 12 4 true)
                (frames_from 16 6 false)) as H.
  cbv zeta in H. destruct H as (_ & _ & Hc & _).
  - reflexivity.
  - reflexivity.
  - reflexivity.
  - reflexivity.
  - cbn. unfold Config.END_STREAK, Config.MAX_SIGN_FRAMES. lia.
  - exact Hc.
Defined.

Lemma continuous_presence_is_cut_at_max_witness :
  exists emitted,
    classified (feed always_hola (reset (fresh nat))
                  (frames_from 0 250 true))
    = classified (fresh nat) ++ emitted
    /\ length emitted
       = length (frames_from 0 250 true)
         / (Config.START_STREAK + Config.MAX_SIGN_FRAMES)
    /\ Forall (fun buf => length buf = Config.MAX_SIGN_FRAMES) emitted.
Proof.
  apply (continuous_presence_is_cut_at_max nat always_hola (fresh nat)
           (frames_from 0 250 true)).
  apply frames_from_present.
Defined.

Lemma recording_starts_after_start_streak_witness :
  feed always_hola (reset (fresh nat))
    ((frames_from 0 3 true ++ frames_from 3 1 false) ++ frames_from 4 4 true)
  = mkWindow RECORDING 0 0 [] [] [] [].
Proof.
  apply (recording_starts_after_start_streak nat always_hola (fresh nat)
           (frames_from 0 3 true ++ frames_from 3 1 false)
           (frames_from 4 4 true)); reflexivity.
Defined.

Lemma delete_last_gloss_undoes_append_witness :
  DeafModeSession.delete_last_gloss (fresh nat) = (fresh nat, None).
Proof.
  apply (proj1 (delete_last_gloss_undoes_append nat always_hola (fresh nat)
                  (lit "HOLA"))).
  reflexivity.
Defined.

End SegmenterRuns.

(* ===================================================================== *)
(** ** Further properties of the translation cascade *)
(* ===================================================================== *)

Module CascadeMore.
Import Gemini Terms MoreTerms Scenarios CascadeFacts.

(** *** [strip] and [split] *)

Lemma lstrip_head (s : str) : head_nonspace (lstrip s).
Proof.
  induction s as [| c s IH]; [exact I |].
  cbn [lstrip]. destruct (isspace c) eqn:E; [exact IH | exact E].
Qed.

Lemma lstrip_fixed (s : str) : head_nonspace s -> lstrip s = s.
Proof.
  destruct s as [| c s]; [reflexivity |]. cbn. intros ->. reflexivity.
Qed.

(** What [lstrip] removes is white space. *)
Lemma lstrip_split (s : str) :
  exists spaces,
    s = spaces ++ lstrip s /\ Forall (fun c => isspace c = true) spaces.
Proof.
  induction s as [| c s (spaces & Hs & Hall)].
  - exists []. auto.
  - cbn [lstrip]. destruct (isspace c) eqn:E.
    + exists (c :: spaces). cbn. rewrite <- Hs. auto.
    + exists []. auto.
Qed.

Lemma rstrip_split (s : str) :
  exists spaces,
    s = rstrip s ++ spaces /\ Forall (fun c => isspace c = true) spaces.
Proof.
  destruct (lstrip_split (rev s)) as (spaces & Hs & Hall).
  exists (rev spaces). split; [| apply Forall_rev, Hall].
  unfold rstrip. rewrite <- rev_app_distr, <- Hs, rev_involutive.
  reflexivity.
Qed.

Lemma rstrip_head (s : str) : head_nonspace s -> head_nonspace (rstrip s).
Proof.
  destruct (rstrip_split s) as (spaces & Hs & _).
  destruct (rstrip s) as [| c r]; [intros _; exact I |].
  rewrite Hs. cbn. auto.
Qed.

Lemma strip_head (s : str) : head_nonspace (strip s).
Proof. apply rstrip_head, lstrip_head. Qed.

Lemma strip_last (s : str) : head_nonspace (rev (strip s)).
Proof.
  unfold strip, rstrip. rewrite rev_involutive. apply lstrip_head.
Qed.

Lemma strip_fixed (s : str) :
  head_nonspace s -> head_nonspace (rev s) -> strip s = s.
Proof.
  intros Hhead Hlast. unfold strip, rstrip.
  rewrite (lstrip_fixed s Hhead), (lstrip_fixed (rev s) Hlast).
  apply rev_involutive.
Qed.

Lemma strip_idempotent (s : str) : strip (strip s) = strip s.
Proof. apply strip_fixed; [apply strip_head | apply strip_last]. Qed.

Lemma no_space_strip (w : str) :
  Forall (fun c => isspace c = false) w -> strip w = w.
Proof.
  intros H. apply strip_fixed.
  - destruct H; [exact I | assumption].
  - apply Forall_rev in H. destruct H; [exact I | assumption].
Qed.

Lemma split_from_spaces (spaces : str) (tok : str) :
  Forall (fun c => isspace c = true) spaces ->
  split_from tok spaces = split_from tok [].
Proof.
  intros H. revert tok. induction H as [| c spaces Hc _ IH]; intros tok.
  - reflexivity.
  - cbn [split_from]. rewrite Hc. destruct tok; rewrite IH; reflexivity.
Qed.

Lemma split_from_trailing (s spaces : str) :
  Forall (fun c => isspace c = true) spaces ->
  forall tok, split_from tok (s ++ spaces) = split_from tok s.
Proof.
  intros H. induction s as [| c s IH]; intros tok.
  - apply split_from_spaces, H.
  - cbn [app split_from]. destruct (isspace c), tok; rewrite ?IH; reflexivity.
Qed.

Lemma split_leading (spaces s : str) :
  Forall (fun c => isspace c = true) spaces ->
  split (spaces ++ s) = split s.
Proof.
  unfold split. induction 1 as [| c spaces Hc _ IH]; [reflexivity |].
  cbn [app split_from]. rewrite Hc. exact IH.
Qed.

(** [s.strip().split()] is [s.split()]. *)
Lemma split_strip (s : str) : split (strip s) = split s.
Proof.
  destruct (lstrip_split s) as (lead & Hl & Hlead).
  destruct (rstrip_split (lstrip s)) as (trail & Ht & Htrail).
  assert (H1 : split s = split (lstrip s)).
  { rewrite Hl at 1. apply split_leading, Hlead. }
  assert (H2 : split (lstrip s) = split (rstrip (lstrip s))).
  { rewrite Ht at 1. apply split_from_trailing, Htrail. }
  rewrite H1, H2. reflexivity.
Qed.

Lemma split_from_nonempty (s : str) :
  forall tok, tok <> [] -> split_from tok s <> [].
Proof.
  induction s as [| c s IH]; intros tok Hne.
  - destruct tok; [contradiction | discriminate].
  - cbn [split_from]. destruct (isspace c).
    + destruct tok; [contradiction | discriminate].
    + apply IH. discriminate.
Qed.

(** A string that begins with a character other than white space has a
    token. *)
Lemma split_nonempty (s : str) :
  s <> [] -> head_nonspace s -> split s <> [].
Proof.
  destruct s as [| c s]; [contradiction |]. intros _ Hc.
  unfold head_nonspace in Hc. unfold split. cbn [split_from]. rewrite Hc.
  apply split_from_nonempty. discriminate.
Qed.

(** On tokens the [strip] and the test of the comprehension of
    [natural_text_to_glosses] do nothing. *)
Lemma comprehension_on_tokens {U : Casing} (s : str) :
  map (fun g => upper (strip g)) (filter (fun g => truthy (strip g)) (split s))
  = map upper (split s).
Proof.
  pose proof (split_tokens (fun _ => True) s) as H.
  assert (Hall : Forall (fun _ : char => True) s)
    by (apply Forall_forall; auto).
  specialize (H Hall). clear Hall.
  induction H as [| w tokens [Hne Hw] _ IH]; [reflexivity |].
  assert (Hstrip : strip w = w).
  { apply no_space_strip. eapply Forall_impl; [| exact Hw]. cbn. tauto. }
  cbn [filter]. rewrite Hstrip.
  destruct w as [| c w]; [contradiction |].
  cbn [truthy map]. rewrite Hstrip, IH. reflexivity.
Qed.

(** *** The two translation functions *)

Lemma local_glosses_nonempty {U : Casing} (text : str) :
  local_glosses text <> [].
Proof.
  unfold local_glosses. destruct (map upper _); discriminate.
Qed.

Section More.

Context {U : Casing}.
Variable World : Type.
Variable generate_content : str -> str -> nat -> World -> Response * World.

(** A run of the cascade over a list that is not empty calls its first
    model, and no more models than the list has. *)
Lemma cascade_run_calls model models prompt n res tr :
  cascade_run (model :: models) prompt n res tr ->
  (exists a rest, attempts tr = a :: rest /\ att_model a = model)
  /\ length (attempts tr) <= length (model :: models).
Proof.
  intros H. pose proof (cascade_run_prefix _ _ _ _ _ H) as [post Hpost].
  split.
  - destruct H as (_ & _ & fails & _ & Hres).
    destruct (attempts tr) as [| a rest] eqn:E.
    + exfalso. destruct res as [r |].
      * destruct Hres as (m & text & post' & _ & Ha & _).
        destruct fails; discriminate Ha.
      * destruct Hres as [<- Hm]. discriminate Hm.
    + exists a, rest. split; [reflexivity |].
      cbn in Hpost. injection Hpost as -> _. reflexivity.
  - apply (f_equal (@length str)) in Hpost.
    rewrite length_app, length_map in Hpost. lia.
Qed.

(** [natural_text_to_glosses] on a text that is not blank, in terms of the
    one call of [try_models] it makes. *)
Lemma natural_text_to_glosses_run (text : str) w :
  truthy (strip text) = true ->
  let run := natural_text_to_glosses generate_content text w in
  let cascade := try_models generate_content (text_prompt text) 50 w in
  fst (fst run)
    = match fst (fst cascade) with
      | Some (c :: r) => map upper (split (c :: r))
      | _ => local_glosses text
      end
  /\ attempts (snd run) = attempts (snd cascade).
Proof.
  cbv zeta. intros Hstrip. unfold natural_text_to_glosses.
  destruct text as [| t text]; [discriminate Hstrip |].
  rewrite Hstrip. cbn [truthy negb orb].
  unfold bind, print, ret.
  destruct (try_models generate_content _ 50 w) as [[res w1] tr].
  cbn [fst snd].
  destruct res as [[| c r] |]; cbn [fst snd];
    rewrite ?comprehension_on_tokens, !attempts_app;
    change (attempts [Printed ?line]) with (@nil Attempt);
    change (attempts []) with (@nil Attempt);
    rewrite !app_nil_r; cbn [app]; auto.
Qed.

(** For a text that is not blank the list of glosses is not empty. *)
Lemma nonblank_glosses_nonempty (text : str) w :
  truthy (strip text) = true ->
  fst (fst (natural_text_to_glosses generate_content text w)) <> [].
Proof.
  intros Hstrip.
  destruct (natural_text_to_glosses_run text w Hstrip) as [Hres _].
  rewrite Hres. unfold try_models.
  destruct (try_models_from_spec World generate_content MODELS
              (text_prompt text) 50 w) as (_ & _ & fails & _ & Hsome).
  destruct (fst (fst (try_models_from _ _ _ _ _))) as [[| c r] |].
  - apply local_glosses_nonempty.
  - destruct Hsome as (m & raw & post & Hr & _).
    pose proof (strip_head raw) as Hhead. rewrite <- Hr in Hhead.
    intros Hnil. apply map_eq_nil in Hnil.
    revert Hnil. apply split_nonempty; [discriminate | exact Hhead].
  - apply local_glosses_nonempty.
Qed.

(** X9.  [glosses_to_natural_text] and the service: for the empty list it
    answers the empty string at once, calls no model and prints nothing;
    for any other list it calls the first model of [MODELS], at most
    three models in all, each with the prompt built from the glosses joined
    with spaces and with 100 as the bound on the output. *)
Theorem glosses_to_natural_text_calls (glosses : list str) (w : World) :
  let run := glosses_to_natural_text generate_content glosses w in
  (glosses = [] -> run = ([], w, []))
  /\ (glosses <> [] ->
      (exists a rest,
         attempts (snd run) = a :: rest
         /\ att_model a = lit "gemini-1.5-flash")
      /\ length (attempts (snd run)) <= 3
      /\ Forall (fun a =>
                   att_contents a = glosses_prompt (join (lit " ") glosses)
                   /\ att_max_output_tokens a = 100)
           (attempts (snd run))).
Proof.
  cbv zeta. split; [intros ->; reflexivity |]. intros Hne.
  destruct (glosses_to_natural_text_run World generate_content glosses w Hne)
    as [_ ->].
  pose proof (try_models_from_spec World generate_content MODELS
                (glosses_prompt (join (lit " ") glosses)) 100 w) as H.
  destruct (cascade_run_calls _ _ _ _ _ _ H) as [Hfirst Hlen].
  split; [exact Hfirst |]. split; [exact Hlen |].
  destruct H as (_ & Hall & _). exact Hall.
Qed.

(** X10.  [natural_text_to_glosses] answers the empty list exactly for the
    blank texts.  For a blank text (empty, or white space only) it calls no
    model and prints nothing; for any other text the list it returns is
    not empty, and it has called the first model of [MODELS], at most
    three models in all, each with the prompt built from the text and 50 as
    the bound on the output. *)
Theorem natural_text_to_glosses_blank (text : str) (w : World) :
  let run := natural_text_to_glosses generate_content text w in
  (truthy (strip text) = false -> run = ([], w, []))
  /\ (truthy (strip text) = true ->
      fst (fst run) <> []
      /\ (exists a rest,
            attempts (snd run) = a :: rest
            /\ att_model a = lit "gemini-1.5-flash")
      /\ length (attempts (snd run)) <= 3
      /\ Forall (fun a => att_contents a = text_prompt text
                          /\ att_max_output_tokens a = 50)
           (attempts (snd run))).
Proof.
  cbv zeta. split.
  - intros Hblank. unfold natural_text_to_glosses.
    rewrite Hblank. cbn [negb]. rewrite orb_true_r. reflexivity.
  - intros Hstrip.
    destruct (natural_text_to_glosses_run text w Hstrip) as [Hres ->].
    pose proof (try_models_from_spec World generate_content MODELS
                  (text_prompt text) 50 w) as H.
    destruct (cascade_run_calls _ _ _ _ _ _ H) as [Hfirst Hlen].
    split; [| split; [exact Hfirst | split; [exact Hlen |]]].
    + apply nonblank_glosses_nonempty, Hstrip.
    + destruct H as (_ & Hall & _). exact Hall.
Qed.

(** X11.  When a model returns a text that is not blank,
    [natural_text_to_glosses] returns the words of that text, as
    [str.split] cuts them, upper-cased one by one: neither the [strip] of
    the response nor the [strip] and the test of each word change
    anything. *)
Theorem backend_glosses_are_upper_cased_words (text : str) (w : World)
    (a : Attempt) (raw : str) :
  let run := natural_text_to_glosses generate_content text w in
  truthy (strip text) = true ->
  In a (attempts (snd run)) ->
  att_outcome a = Returned raw ->
  truthy (strip raw) = true ->
  fst (fst run) = map upper (split raw).
Proof.
  cbv zeta. intros Hstrip Hin Hout Hraw.
  destruct (natural_text_to_glosses_run text w Hstrip) as [Hres Hatt].
  rewrite Hatt in Hin. rewrite Hres. unfold try_models in *.
  destruct (cascade_run_returned _ _ _ _ _ _ _
              (try_models_from_spec World generate_content MODELS _ 50 w)
              Hin Hout) as [-> _].
  destruct (strip raw) as [| c r] eqn:E; [discriminate Hraw |].
  rewrite <- E, split_strip. reflexivity.
Qed.

(** X12.  What [glosses_to_natural_text] can return for a list that is not
    empty: the local fallback, or the text of the one model that returned,
    stripped, which is then not empty and has no white space at either
    end. *)
Theorem glosses_to_natural_text_results (glosses : list str) (w : World) :
  let run := glosses_to_natural_text generate_content glosses w in
  glosses <> [] ->
  fst (fst run) = local_text glosses
  \/ exists a raw,
       In a (attempts (snd run))
       /\ att_outcome a = Returned raw
       /\ fst (fst run) = strip raw
       /\ strip raw <> []
       /\ (forall c rest, strip raw = c :: rest -> isspace c = false)
       /\ (forall c rest, strip raw = rest ++ [c] -> isspace c = false).
Proof.
  cbv zeta. intros Hne.
  destruct (glosses_to_natural_text_run World generate_content glosses w Hne)
    as [Hres Hatt].
  rewrite Hres, Hatt. unfold try_models.
  pose proof (try_models_from_spec World generate_content MODELS
                (glosses_prompt (join (lit " ") glosses)) 100 w) as H.
  destruct H as (_ & _ & fails & _ & Hsome).
  destruct (fst (fst (try_models_from _ _ _ _ _))) as [[| c r] |];
    [left; reflexivity | | left; reflexivity].
  right. destruct Hsome as (m & raw & post & Hr & Ha & _).
  exists (mkAttempt m (glosses_prompt (join (lit " ") glosses)) 100
            (Returned raw)), raw.
  split; [rewrite Ha; apply in_or_app; right; left; reflexivity |].
  split; [reflexivity |]. split; [exact Hr |].
  split; [rewrite <- Hr; discriminate |]. split.
  - intros c' rest E. pose proof (strip_head raw) as Hh.
    rewrite E in Hh. exact Hh.
  - intros c' rest E. pose proof (strip_last raw) as Hl.
    rewrite E, rev_app_distr in Hl. exact Hl.
Qed.

End More.

(** *** Concrete runs, on the Latin-1 tables *)

Lemma glosses_to_natural_text_calls_witness :
  length (attempts (snd (glosses_to_natural_text (U := latin1) unavailable
                           [lit "HOLA"] tt))) <= 3.
Proof.
  pose proof (glosses_to_natural_text_calls (U := latin1) unit unavailable
                [lit "HOLA"] tt) as H.
  cbv zeta in H. destruct H as [_ H].
  destruct H as (_ & Hlen & _); [discriminate | exact Hlen].
Defined.

Lemma natural_text_to_glosses_blank_witness :
  natural_text_to_glosses (U := latin1) lower_case_glosses (lit "  ") tt
  = ([], tt, []).
Proof.
  apply (proj1 (natural_text_to_glosses_blank (U := latin1) unit
                  lower_case_glosses (lit "  ") tt)).
  reflexivity.
Defined.

Lemma backend_glosses_are_upper_cased_words_witness :
  fst (fst (natural_text_to_glosses (U := latin1) lower_case_glosses
              (lit "yo quiero una casa") tt))
  = map (upper (Casing := latin1)) (split (lit "  yo  querer casa ")).
Proof.
  apply (backend_glosses_are_upper_cased_words (U := latin1) unit
           lower_case_glosses (lit "yo quiero una casa") tt
           (mkAttempt (lit "gemini-1.5-flash")
              (text_prompt (lit "yo quiero una casa")) 50
              (Returned (lit "  yo  querer casa ")))
           (lit "  yo  querer casa ")).
  - reflexivity.
  - vm_compute. left. reflexivity.
  - reflexivity.
  - reflexivity.
Defined.

Lemma glosses_to_natural_text_results_witness :
  fst (fst (glosses_to_natural_text (U := latin1) first_exhausted
              [lit "HOLA"] tt))
  = local_text (U := latin1) [lit "HOLA"]
  \/ exists a raw,
       In a (attempts (snd (glosses_to_natural_text (U := latin1)
                              first_exhausted [lit "HOLA"] tt)))
       /\ att_outcome a = Returned raw
       /\ fst (fst (glosses_to_natural_text (U := latin1) first_exhausted
                      [lit "HOLA"] tt)) = strip raw
       /\ strip raw <> []
       /\ (forall c rest, strip raw = c :: rest -> isspace c = false)
       /\ (forall c rest, strip raw = rest ++ [c] -> isspace c = false).
Proof.
  apply (glosses_to_natural_text_results (U := latin1) unit first_exhausted
           [lit "HOLA"] tt).
  discriminate.
Defined.

End CascadeMore.

(* ===================================================================== *)
(** ** Properties of the two windows' translations *)
(* ===================================================================== *)

Module WindowFacts.
Import Gemini Terms MoreTerms Scenarios CascadeFacts CascadeMore.

Section Facts.

Context {U : Casing}.
Variable World : Type.
Variable generate_content : str -> str -> nat -> World -> Response * World.

(** X13.  [translate_glosses] (deaf mode).  With an empty ledger it does
    nothing and calls no model.  Otherwise the models are called as
    [glosses_to_natural_text] calls them, not once more, and the text to
    show is the line [[No disponible] Glosas: ...] with the glosses when
    the translation starts with [Error] or holds [quota] in lower case,
    and the translation itself otherwise; neither it nor the line of the
    [except] branch starts with [Error].  What is done is first displays
    and utterances of that text and of no other, then, if an exception
    has left the [try] block, the line [[ERROR] ...] and at most one
    display of [[Error] Glosas: ...].  When no call raises, the text is
    displayed and the status set if the window exists, and the text is
    spoken if speech is on and available.  A [TclError] of the window is
    swallowed, and the text is still spoken.  When reading the speech
    option raises, the exception goes to the [except] branch after the
    display. *)
Theorem translate_glosses_shows_no_error (glosses : list str)
    (ui : DeafModeSession.Ui) (w : World) :
  let run :=
    DeafModeSession.translate_glosses generate_content glosses ui w in
  let translation := glosses_to_natural_text generate_content glosses w in
  let text :=
    if startswith (fst (fst translation)) (lit "Error")
       || contains (lit "quota") (lower (fst (fst translation)))
    then lit "[No disponible] Glosas: " ++ join (lit " ") glosses
    else fst (fst translation) in
  let fallback := lit "[Error] Glosas: " ++ join (lit " ") glosses in
  let displayed (exists_ : bool) :=
    if exists_
    then [DeafModeSession.DisplayTranslation text;
          DeafModeSession.StatusCompleted]
    else [] in
  let spoken (enabled : bool) :=
    if enabled && DeafModeSession.TTS_AVAILABLE ui
    then [DeafModeSession.Say text; DeafModeSession.RunAndWait]
    else [] in
  (glosses = [] -> run = ([], w, []))
  /\ (glosses <> [] ->
      snd run = snd translation
      /\ snd (fst run) = snd (fst translation)
      /\ startswith text (lit "Error") = false
      /\ startswith fallback (lit "Error") = false
      /\ (exists normal handler,
            fst (fst run) = normal ++ handler
            /\ Forall (fun a => a = DeafModeSession.DisplayTranslation text
                                \/ a = DeafModeSession.StatusCompleted
                                \/ a = DeafModeSession.Say text
                                \/ a = DeafModeSession.RunAndWait) normal
            /\ (handler = []
                \/ exists e,
                     handler = [DeafModeSession.PrintError e]
                     \/ handler
                        = [DeafModeSession.PrintError e;
                           DeafModeSession.DisplayTranslation fallback]))
      /\ (forall exists_ enabled,
            DeafModeSession.winfo_exists ui = DeafModeSession.Done exists_ ->
            DeafModeSession.after_display ui = DeafModeSession.Done tt ->
            DeafModeSession.after_status ui = DeafModeSession.Done tt ->
            DeafModeSession.enable_tts_get ui
            = DeafModeSession.Done enabled ->
            DeafModeSession.tts_say ui = DeafModeSession.Done tt ->
            DeafModeSession.tts_runAndWait ui = DeafModeSession.Done tt ->
            fst (fst run) = displayed exists_ ++ spoken enabled)
      /\ (forall e enabled,
            DeafModeSession.winfo_exists ui = DeafModeSession.TclError e ->
            DeafModeSession.enable_tts_get ui
            = DeafModeSession.Done enabled ->
            DeafModeSession.tts_say ui = DeafModeSession.Done tt ->
            DeafModeSession.tts_runAndWait ui = DeafModeSession.Done tt ->
            fst (fst run) = spoken enabled)
      /\ (forall exists_ e,
            DeafModeSession.winfo_exists ui = DeafModeSession.Done exists_ ->
            DeafModeSession.after_display ui = DeafModeSession.Done tt ->
            DeafModeSession.after_status ui = DeafModeSession.Done tt ->
            DeafModeSession.enable_tts_get ui = DeafModeSession.TclError e
            \/ DeafModeSession.enable_tts_get ui
               = DeafModeSession.OtherError e ->
            fst (fst run)
            = displayed exists_
              ++ DeafModeSession.on_exception ui glosses e)).
Proof.
  cbv zeta. split; [intros ->; reflexivity |]. intros Hne.
  destruct glosses as [| g glosses]; [contradiction |].
  unfold DeafModeSession.translate_glosses, DeafModeSession.translate_bg.
  unfold bind, ret.
  destruct (glosses_to_natural_text generate_content (g :: glosses) w)
    as [[translation w1] tr].
  cbn [fst snd].
  set (text := if startswith translation (lit "Error") || _ then _ else _).
  assert (Hstart : startswith text (lit "Error") = false).
  { subst text.
    destruct (startswith translation (lit "Error")) eqn:Estart; cbn [orb];
      [reflexivity |].
    destruct (contains (lit "quota") (lower translation));
      [reflexivity | exact Estart]. }
  split; [| split; [| split; [exact Hstart | split; [reflexivity |]]]].
  1, 2: destruct (DeafModeSession.show ui text) as [shown [e |]];
    [| destruct (DeafModeSession.speak ui text) as [spoken [e |]]];
    cbn [fst snd]; rewrite ?app_nil_r; reflexivity.
  split; [| split; [| split]].
  - set (ok := fun a => a = DeafModeSession.DisplayTranslation text
                        \/ a = DeafModeSession.StatusCompleted
                        \/ a = DeafModeSession.Say text
                        \/ a = DeafModeSession.RunAndWait).
    assert (Hshow : Forall ok (fst (DeafModeSession.show ui text))).
    { unfold DeafModeSession.show.
      destruct (DeafModeSession.winfo_exists ui) as [[|] | |];
        [destruct (DeafModeSession.after_display ui);
           [destruct (DeafModeSession.after_status ui) | |] | | |];
        cbn [fst]; repeat constructor; unfold ok; tauto. }
    assert (Hspeak : Forall ok (fst (DeafModeSession.speak ui text))).
    { unfold DeafModeSession.speak.
      destruct (DeafModeSession.enable_tts_get ui) as [enabled | |];
        [destruct (enabled && DeafModeSession.TTS_AVAILABLE ui);
           [destruct (DeafModeSession.tts_say ui);
              [destruct (DeafModeSession.tts_runAndWait ui) | |] |] | |];
        cbn [fst]; repeat constructor; unfold ok; tauto. }
    assert (Hhandler : forall e,
      exists e',
        DeafModeSession.on_exception ui (g :: glosses) e
        = [DeafModeSession.PrintError e']
        \/ DeafModeSession.on_exception ui (g :: glosses) e
           = [DeafModeSession.PrintError e';
              DeafModeSession.DisplayTranslation
                (lit "[Error] Glosas: "
                 ++ join (lit " ") (g :: glosses))]).
    { intros e. exists e. unfold DeafModeSession.on_exception. cbv zeta.
      destruct (DeafModeSession.handler_winfo_exists ui) as [[|] | |];
        auto.
      destruct (DeafModeSession.handler_after_display ui); auto. }
    destruct (DeafModeSession.show ui text) as [shown [e |]];
      [| destruct (DeafModeSession.speak ui text) as [spoken [e |]]];
      cbn [fst snd] in *.
    + exists shown, (DeafModeSession.on_exception ui (g :: glosses) e).
      split; [reflexivity |].
      split; [exact Hshow | right; apply Hhandler].
    + exists (shown ++ spoken),
        (DeafModeSession.on_exception ui (g :: glosses) e).
      split; [rewrite app_assoc; reflexivity |].
      split; [apply Forall_app; auto | right; apply Hhandler].
    + exists (shown ++ spoken), [].
      split; [rewrite app_nil_r; reflexivity |].
      split; [apply Forall_app; auto | left; reflexivity].
  - intros exists_ enabled H1 H2 H3 H4 H5 H6.
    unfold DeafModeSession.show, DeafModeSession.speak.
    rewrite H1, H2, H3, H4, H5, H6.
    destruct exists_, (enabled && DeafModeSession.TTS_AVAILABLE ui);
      reflexivity.
  - intros e enabled H1 H4 H5 H6.
    unfold DeafModeSession.show, DeafModeSession.speak.
    rewrite H1, H4, H5, H6.
    destruct (enabled && DeafModeSession.TTS_AVAILABLE ui); reflexivity.
  - intros exists_ e H1 H2 H3 H4.
    unfold DeafModeSession.show, DeafModeSession.speak.
    rewrite H1, H2, H3.
    destruct H4 as [H4 | H4]; rewrite H4; destruct exists_; reflexivity.
Qed.

(** X14.  [translate_text] (hearing mode).  For a blank input it warns,
    calls no model and leaves the window as it is.  For any other input the
    glosses it gets are never the empty list, so the label
    [No se encontraron glosas] is never set: the glosses become
    [current_glosses], their badges are shown, and a playback of them is
    started unless one is running, in which case none is started for
    them. *)
Theorem translate_text_outcomes (self : HearingMode.HearingModeWindow)
    (input : str) (w : World) :
  let run := HearingMode.translate_text generate_content self input w in
  (truthy (strip input) = false ->
   run = ((self, [HearingMode.WarnEmptyText]), w, []))
  /\ (truthy (strip input) = true ->
      exists glosses,
        glosses <> []
        /\ glosses
           = fst (fst (natural_text_to_glosses generate_content
                         (strip input) w))
        /\ HearingMode.current_glosses (fst (fst (fst run))) = glosses
        /\ HearingMode.is_playing (fst (fst (fst run))) = true
        /\ snd (fst (fst run))
           = [HearingMode.SetLabel HearingMode.LabelTranslating;
              HearingMode.ShowBadges glosses;
              HearingMode.SetLabel
                (HearingMode.LabelPlaying (length glosses))]
             ++ (if HearingMode.is_playing self then []
                 else [HearingMode.StartPlayback glosses])).
Proof.
  cbv zeta. unfold HearingMode.translate_text. split.
  - intros ->. reflexivity.
  - intros Hstrip. rewrite Hstrip. cbn [negb].
    pose proof (nonblank_glosses_nonempty World generate_content
                  (strip input) w) as Hne.
    rewrite strip_idempotent in Hne. specialize (Hne Hstrip).
    unfold bind.
    destruct (natural_text_to_glosses generate_content (strip input) w)
      as [[glosses w1] tr].
    cbn [fst snd] in *. exists glosses.
    destruct glosses as [| g glosses]; [contradiction |].
    unfold HearingMode.display_glosses, HearingMode.play_videos.
    cbn [HearingMode.current_glosses HearingMode.is_playing].
    destruct (HearingMode.is_playing self) eqn:Eplay; cbn;
      repeat split; auto; discriminate.
Qed.

End Facts.

(** *** Concrete runs, on the Latin-1 tables *)

Lemma translate_glosses_shows_no_error_witness :
  fst (fst (DeafModeSession.translate_glosses (U := latin1) unavailable
              [lit "HOLA"; lit "MUNDO"] UiScenarios.calm tt))
  = [DeafModeSession.DisplayTranslation (lit "Hola mundo");
     DeafModeSession.StatusCompleted;
     DeafModeSession.Say (lit "Hola mundo");
     DeafModeSession.RunAndWait].
Proof.
  pose proof (translate_glosses_shows_no_error (U := latin1) unit
                unavailable [lit "HOLA"; lit "MUNDO"] UiScenarios.calm tt)
    as H.
  cbv zeta in H. destruct H as [_ H].
  destruct H as (_ & _ & _ & _ & _ & H & _); [discriminate |].
  rewrite (H true true); reflexivity.
Defined.

Example translate_glosses_broken_option :
  fst (fst (DeafModeSession.translate_glosses (U := latin1) unavailable
              [lit "HOLA"; lit "MUNDO"] UiScenarios.broken_option tt))
  = [DeafModeSession.DisplayTranslation (lit "Hola mundo");
     DeafModeSession.StatusCompleted;
     DeafModeSession.PrintError (lit "invalid command name");
     DeafModeSession.DisplayTranslation (lit "[Error] Glosas: HOLA MUNDO")].
Proof. reflexivity. Qed.

Lemma translate_text_outcomes_witness :
  HearingMode.translate_text (U := latin1) lower_case_glosses
    (HearingMode.mkHearing [] false) (lit "   ") tt
  = ((HearingMode.mkHearing [] false, [HearingMode.WarnEmptyText]), tt, []).
Proof.
  apply (proj1 (translate_text_outcomes (U := latin1) unit
                  lower_case_glosses (HearingMode.mkHearing [] false)
                  (lit "   ") tt)).
  reflexivity.
Defined.

End WindowFacts.

(* ===================================================================== *)
(** ** Properties of the video player *)
(* ===================================================================== *)

Module VideoFacts.
Import VideoPlayer MoreTerms CascadeFacts.

Lemma eqb_refl (a : str) : PyStr.eqb a a = true.
Proof. apply eqb_eq. reflexivity. Qed.

Lemma eqb_neq (a b : str) : a <> b -> PyStr.eqb a b = false.
Proof.
  intros Hne. destruct (PyStr.eqb a b) eqn:E; [| reflexivity].
  apply eqb_eq in E. contradiction.
Qed.

(** Removing a key does not change what the other keys give. *)
Lemma dict_get_remove (V : Type) (key other : str) (d : list (str * V)) :
  other <> key -> dict_get other (dict_remove key d) = dict_get other d.
Proof.
  intros Hne. induction d as [| [k v] d IH]; [reflexivity |].
  unfold dict_remove in *. cbn [filter fst dict_get].
  destruct (PyStr.eqb k key) eqn:Ek; cbn [negb dict_get].
  - apply eqb_eq in Ek. subst k. rewrite (eqb_neq _ _ Hne). exact IH.
  - rewrite IH. reflexivity.
Qed.

Lemma dict_get_removed (V : Type) (key : str) (d : list (str * V)) :
  dict_get key (dict_remove key d) = None.
Proof.
  induction d as [| [k v] d IH]; [reflexivity |].
  unfold dict_remove in *. cbn [filter fst].
  destruct (PyStr.eqb k key) eqn:Ek; cbn [negb dict_get]; [exact IH |].
  destruct (PyStr.eqb key k) eqn:Ek'; [| exact IH].
  apply eqb_eq in Ek'. subst k. rewrite eqb_refl in Ek. discriminate.
Qed.

Section Facts.

Context {U : Casing}.
Variable Path : Type.
Variable PROJECT_ROOT : Path.
Variable joinpath : Path -> str -> Path.
Variable World : Type.
Variable path_exists : Path -> World -> bool.
Variable play_video : Path -> str -> World -> bool * World.
Variable waitKey : nat -> World -> Z * World.

Abbreviation lookup := (get_video_path PROJECT_ROOT joinpath path_exists).

(** [get_video_path] reads its gloss through [upper] only. *)
Lemma lookup_upper (self : VideoPlayer) (gloss other : str) (w : World) :
  upper other = upper gloss -> lookup self other w = lookup self gloss w.
Proof. intros E. unfold get_video_path. rewrite E. reflexivity. Qed.

(** What [get_video_path] does: it leaves the world as it is and prints at
    most that a file is missing. *)
Lemma lookup_run (self : VideoPlayer) (gloss : str) (w : World) :
  snd (fst (lookup self gloss w)) = w
  /\ plays (snd (lookup self gloss w)) = []
  /\ announced (snd (lookup self gloss w)) = []
  /\ window_events (snd (lookup self gloss w)) = []
  /\ (forall p,
        fst (fst (lookup self gloss w)) = Some p ->
        exists video_data rel_path,
          dict_get (upper gloss) (gloss_index self) = Some video_data
          /\ dict_get (lit "path") video_data = Some rel_path
          /\ rel_path <> []
          /\ p = joinpath PROJECT_ROOT rel_path
          /\ path_exists p w = true
          /\ snd (lookup self gloss w) = []).
Proof.
  unfold get_video_path.
  destruct (dict_get (upper gloss) (gloss_index self)) as [video_data |];
    [| cbn; repeat split; auto; discriminate].
  destruct (dict_get (lit "path") video_data) as [[| c rel] |] eqn:Epath;
    cbn [truthy negb]; try (cbn; repeat split; auto; discriminate).
  destruct (path_exists (joinpath PROJECT_ROOT (c :: rel)) w) eqn:Eex;
    cbn [negb]; [| cbn; repeat split; auto; discriminate].
  cbn. repeat split; auto. intros p [= <-].
  exists video_data, (c :: rel). repeat split; auto. discriminate.
Qed.

(** X15.  [get_video_path] looks a gloss up whatever its case: every
    spelling with the same upper-casing gives the same answer.  A path it
    returns is [PROJECT_ROOT / rel_path] for the non-empty [path] of the
    entry filed under the upper-cased gloss, and the file exists; nothing
    is printed then.  A gloss whose upper-casing is not a key of the index
    gets [None] without a word. *)
Theorem get_video_path_ignores_case (laws : CasingLaws U)
    (self : VideoPlayer) (gloss : str) (w : World) :
  lookup self (upper gloss) w = lookup self gloss w
  /\ (forall other,
        upper other = upper gloss ->
        lookup self other w = lookup self gloss w)
  /\ (forall p,
        fst (fst (lookup self gloss w)) = Some p ->
        exists video_data rel_path,
          dict_get (upper gloss) (gloss_index self) = Some video_data
          /\ dict_get (lit "path") video_data = Some rel_path
          /\ rel_path <> []
          /\ p = joinpath PROJECT_ROOT rel_path
          /\ path_exists p w = true
          /\ snd (lookup self gloss w) = [])
  /\ (dict_get (upper gloss) (gloss_index self) = None ->
      lookup self gloss w = (None, w, [])).
Proof.
  split; [| split; [| split]].
  - apply lookup_upper, (upper_idempotent U laws).
  - intros other E. apply lookup_upper, E.
  - apply lookup_run.
  - intros E. unfold get_video_path. rewrite E. reflexivity.
Qed.

(** X16.  An entry of the index whose key is not its own upper-casing is
    never found: with or without it, every gloss gets the same answer. *)
Theorem mixed_case_keys_are_unreachable (laws : CasingLaws U)
    (self : VideoPlayer) (key : str) :
  upper key <> key ->
  forall (gloss : str) (w : World),
    lookup (mkPlayer (dict_remove key (gloss_index self))) gloss w
    = lookup self gloss w.
Proof.
  intros Hkey gloss w. unfold get_video_path. cbn [gloss_index].
  rewrite dict_get_remove; [reflexivity |].
  intros E. apply Hkey. rewrite <- E. apply (upper_idempotent U laws).
Qed.

Ltac split_trace :=
  unfold announced, plays, window_events in *;
  repeat (progress (rewrite ?flat_map_app, ?filter_app;
                    cbn [flat_map filter app])).

Abbreviation loop :=
  (play_from PROJECT_ROOT joinpath path_exists play_video waitKey).

(** The loop of [play_sequence]: the glosses it announces are the first
    [k] of its list, numbered on from [i]; the videos it plays all end well
    but, possibly, the last one, after which it plays nothing more; the
    count it returns has grown by the videos that ended well; and it
    creates and destroys no window. *)
Lemma play_from_run (self : VideoPlayer) (window_name : str) (total : nat)
    (glosses : list str) :
  forall (i played_count : nat) (w : World),
    let run := loop self window_name total i glosses played_count w in
    exists k stopped,
      k <= length glosses
      /\ announced (snd run) = numbered i total (firstn k glosses)
      /\ plays (snd run)
         = repeat true (fst (fst run) - played_count)
           ++ (if stopped : bool then [false] else [])
      /\ played_count <= fst (fst run)
      /\ fst (fst run) - played_count + (if stopped then 1 else 0) <= k
      /\ window_events (snd run) = [].
Proof.
  induction glosses as [| gloss rest IH]; intros i played_count w; cbv zeta.
  - exists 0, false. cbn. rewrite Nat.sub_diag. repeat split; auto.
  - destruct (loop self window_name total i (gloss :: rest) played_count w)
      as [[n0 w0] tr0] eqn:Erun.
    cbn [fst snd]. cbn [play_from] in Erun. unfold bind, emit, ret in Erun.
    destruct (lookup_run self gloss w) as (Hw & Hplays & Hann & Hwin & _).
    destruct (lookup self gloss w) as [[video_path w1] tr1].
    cbn [fst snd] in Hw, Hplays, Hann, Hwin. subst w1.
    destruct video_path as [video_path |].
    + destruct (play_video video_path window_name w) as [ok w2].
      destruct ok; cbn [negb] in Erun.
      * specialize (IH (i + 1) (played_count + 1) w2). cbv zeta in IH.
        destruct (loop self window_name total (i + 1) rest
                    (played_count + 1) w2) as [[n w3] tr3].
        cbn [fst snd] in IH. injection Erun as <- <- <-.
        destruct IH as (k & stopped & Hk & Han & Hpl & Hle & Hcount & Hwe).
        exists (S k), stopped. split_trace.
        rewrite Hplays, Hann, Hwin, Han, Hpl, Hwe. cbn [app firstn numbered].
        replace (n - played_count) with (S (n - (played_count + 1))) by lia.
        cbn [repeat app length]. repeat split; auto; lia.
      * injection Erun as <- <- <-. exists 1, true. split_trace.
        rewrite Hplays, Hann, Hwin, Nat.sub_diag. cbn.
        repeat split; auto; lia.
    + destruct (waitKey 2000 w) as [key w2].
      destruct (Z.land key 255 =? 113)%Z.
      * injection Erun as <- <- <-. exists 1, false. split_trace.
        rewrite Hplays, Hann, Hwin, Nat.sub_diag. cbn.
        repeat split; auto; lia.
      * specialize (IH (i + 1) played_count w2). cbv zeta in IH.
        destruct (loop self window_name total (i + 1) rest played_count w2)
          as [[n w3] tr3].
        cbn [fst snd] in IH. injection Erun as <- <- <-.
        destruct IH as (k & stopped & Hk & Han & Hpl & Hle & Hcount & Hwe).
        exists (S k), stopped. split_trace.
        rewrite Hplays, Hann, Hwin, Han, Hpl, Hwe. cbn [app firstn numbered].
        cbn [length]. repeat split; auto; lia.
Qed.

(** X17.  [play_sequence].  For no glosses it answers 0 and does nothing.
    Otherwise it creates the window, resizes it, and destroys it as its
    last act on every way out, creating and destroying no other.  The
    glosses it announces are the first ones of the list, in order, counted
    [i/total] from 1; every video it plays ends well but, possibly, the
    last, after which nothing is played; and the number it returns is the
    number of videos that ended well, at most the number of glosses
    announced. *)
Theorem play_sequence_counts_played_videos (self : VideoPlayer)
    (glosses : list str) (window_name : str) (w : World) :
  let run :=
    play_sequence PROJECT_ROOT joinpath path_exists play_video waitKey
      self glosses window_name w in
  (glosses = [] -> run = (0, w, []))
  /\ (glosses <> [] ->
      exists body,
        snd run
        = NamedWindow window_name :: ResizeWindow window_name 640 480
          :: body ++ [DestroyWindow window_name]
        /\ window_events body = [])
  /\ exists k stopped,
       k <= length glosses
       /\ announced (snd run)
          = numbered 0 (length glosses) (firstn k glosses)
       /\ plays (snd run)
          = repeat true (fst (fst run))
            ++ (if stopped : bool then [false] else [])
       /\ fst (fst run) + (if stopped then 1 else 0) <= k.
Proof.
  cbv zeta. destruct glosses as [| gloss rest].
  - split; [reflexivity |]. split; [intros H; contradiction |].
    exists 0, false. cbn. auto.
  - split; [discriminate |].
    destruct (play_sequence PROJECT_ROOT joinpath path_exists play_video
                waitKey self (gloss :: rest) window_name w)
      as [[n0 w0] tr0] eqn:Erun.
    unfold play_sequence, bind, emit, ret in Erun.
    pose proof (play_from_run self window_name (length (gloss :: rest))
                  (gloss :: rest) 0 0 w) as H.
    cbv zeta in H.
    destruct (loop self window_name (length (gloss :: rest)) 0
                (gloss :: rest) 0 w) as [[n w1] tr].
    cbn [fst snd] in H. injection Erun as <- <- <-.
    destruct H as (k & stopped & Hk & Han & Hpl & _ & Hcount & Hwe).
    rewrite Nat.sub_0_r in Hpl, Hcount. cbn [fst snd]. split.
    + intros _. exists tr. split; [| exact Hwe].
      cbn [app]. rewrite ?app_nil_r. reflexivity.
    + exists k, stopped. split_trace.
      rewrite Han, Hpl. rewrite ?app_nil_r. auto.
Qed.

End Facts.

(** *** Concrete runs, on the Latin-1 tables *)

Import VideoScenarios.

Example lookup_examples :
  get_video_path (U := latin1) (lit "/srv") slash two_videos small_index
    (lit "hola") tt
  = (Some (lit "/srv/videos/hola.mp4"), tt, [])
  /\ get_video_path (U := latin1) (lit "/srv") slash two_videos small_index
       (lit "Gracias") tt
     = (None, tt, []).
Proof. vm_compute. auto. Qed.

Lemma get_video_path_ignores_case_witness :
  get_video_path (U := latin1) (lit "/srv") slash two_videos small_index
    (upper (Casing := latin1) (lit "Hola")) tt
  = get_video_path (U := latin1) (lit "/srv") slash two_videos small_index
      (lit "Hola") tt.
Proof.
  apply (proj1 (get_video_path_ignores_case (U := latin1) str (lit "/srv")
                  slash unit two_videos latin1_laws small_index
                  (lit "Hola") tt)).
Defined.

Lemma mixed_case_keys_are_unreachable_witness :
  get_video_path (U := latin1) (lit "/srv") slash two_videos
    (mkPlayer (dict_remove (lit "Gracias") (gloss_index small_index)))
    (lit "gracias") tt
  = get_video_path (U := latin1) (lit "/srv") slash two_videos small_index
      (lit "gracias") tt.
Proof.
  apply (mixed_case_keys_are_unreachable (U := latin1) str (lit "/srv")
           slash unit two_videos latin1_laws small_index (lit "Gracias")).
  vm_compute. discriminate.
Defined.

Lemma play_sequence_counts_played_videos_witness :
  play_sequence (U := latin1) (lit "/srv") slash two_videos plays_well
    no_key small_index [] (lit "Sign Video") tt
  = (0, tt, []).
Proof.
  apply (proj1 (play_sequence_counts_played_videos (U := latin1) str
                  (lit "/srv") slash unit two_videos plays_well no_key
                  small_index [] (lit "Sign Video") tt)).
  reflexivity.
Defined.

Example play_sequence_example :
  let run :=
    play_sequence (U := latin1) (lit "/srv") slash two_videos plays_well
      no_key small_index [lit "hola"; lit "gracias"; lit "Hola"]
      (lit "Sign Video") tt in
  fst (fst run) = 2
  /\ plays (snd run) = [true; true]
  /\ announced (snd run)
     = [(1, 3, lit "hola"); (2, 3, lit "gracias"); (3, 3, lit "Hola")].
Proof. vm_compute. auto. Qed.

End VideoFacts.
